(** * StarfoxMenuSystem: campaign progression and persistence

    A shallow embedding of the progression logic of [StarfoxMenuSystem.jsx]:
    the campaign graph, the wingman selection, the handlers of the main
    orchestrator component, the single-record progress store, and the
    New Game+ unlock table.

    Conventions of the embedding.
    - JS strings are [string]; JS arrays are [list].
    - The numbers the handlers compute with (scores, run counters, tier
      numbers) are integer-valued doubles, modelled by the integer in [Z];
      [a + b] is [jsAdd]: the exact sum rounded to the nearest double, as
      long as it is finite.  A statement about an exact sum names the range
      of safe integers it holds in.
    - A property that may be missing from an object (a loaded record, the
      argument of [saveProgress]) is an [option]; [None] is [undefined].
    - React state is a record; a [setX] call is a field update.  A handler
      reads the values of the render it was created in, so every handler is
      a function of the state before the event.
    - A store request either resolves or rejects; the outcome is an
      argument ([IO]) of the operation.  A request started by a handler is
      taken to settle before the next event is handled.  The load started
      by the mount effect settles at the event [Mount], on whatever screen
      is shown by then. *)

From Stdlib Require Import List String ZArith QArith Bool Lia.
Import ListNotations.
Open Scope string_scope.
Open Scope Z_scope.
Open Scope list_scope.

(** ** JavaScript helpers *)

(** [Array.prototype.includes] on an array of strings. *)
Definition includes (xs : list string) (x : string) : bool :=
  existsb (String.eqb x) xs.

(** [a || 0] on a number. *)
Definition orZero (a : option Z) : Z :=
  match a with
  | Some n => if n =? 0 then 0 else n
  | None => 0
  end.

(** [Number.MAX_SAFE_INTEGER]. *)
Definition MAX_SAFE_INTEGER : Z := 2 ^ 53 - 1.

(** [Number.isSafeInteger] on an integer. *)
Definition isSafeInteger (n : Z) : Prop :=
  - MAX_SAFE_INTEGER <= n <= MAX_SAFE_INTEGER.

(** The double nearest to an integer: 53 significant bits are kept, and a
    tie goes to the even significand. *)
Definition toDouble (n : Z) : Z :=
  let a := Z.abs n in
  let e := Z.log2 a - 52 in
  if e <=? 0 then n
  else
    let ulp := 2 ^ e in
    let q := a / ulp in
    let r := a mod ulp in
    let half := ulp / 2 in
    let q' := if (half <? r) || ((r =? half) && Z.odd q) then q + 1 else q in
    Z.sgn n * (q' * ulp).

(** [a + b] on two numbers. *)
Definition jsAdd (a b : Z) : Z := toDouble (a + b).

(** [a || d] on a string: the empty string is falsy. *)
Definition orString (a : option string) (d : string) : string :=
  match a with
  | Some "" => d
  | Some s => s
  | None => d
  end.

(** [a || []] on an array: every array is truthy. *)
Definition orEmpty {A : Type} (a : option (list A)) : list A :=
  match a with
  | Some xs => xs
  | None => []
  end.

(** [a?.length > 0]: [undefined > 0] is false. *)
Definition nonEmpty {A : Type} (a : option (list A)) : bool :=
  match a with
  | Some (_ :: _) => true
  | _ => false
  end.

(** The result of reading [obj[key]] on an object literal: an own property,
    a member inherited from [Object.prototype] (always truthy, and without
    any of the data properties of the literal), or [undefined]. *)
Inductive Lookup (A : Type) : Type :=
| Own (a : A)
| Inherited
| Undefined.
Arguments Own {A} a.
Arguments Inherited {A}.
Arguments Undefined {A}.

Definition objectPrototypeKeys : list string :=
  [ "constructor"; "__proto__"; "hasOwnProperty"; "isPrototypeOf";
    "propertyIsEnumerable"; "toLocaleString"; "toString"; "valueOf";
    "__defineGetter__"; "__defineSetter__";
    "__lookupGetter__"; "__lookupSetter__" ].

Fixpoint ownProperty {A : Type} (obj : list (string * A)) (key : string)
  : option A :=
  match obj with
  | [] => None
  | (k, v) :: rest => if String.eqb k key then Some v else ownProperty rest key
  end.

Definition getProperty {A : Type} (obj : list (string * A)) (key : string)
  : Lookup A :=
  match ownProperty obj key with
  | Some v => Own v
  | None => if includes objectPrototypeKeys key then Inherited else Undefined
  end.

(** ** Campaign data *)

(** A level of [CAMPAIGN_DATA.levels].  The display strings [subtitle] and
    [description] play no part in the progression and are left out;
    [isFinal] is [false] where the literal does not set it. *)
Record Level : Type := mkLevel {
  levelId : string;
  levelName : string;
  difficulty : Z;
  nextChoices : list string;
  environment : string;
  isFinal : bool
}.

Record Connection : Type := mkConnection {
  from : string;
  to : string
}.

Module CAMPAIGN_DATA.

(** The tables are kept in the order of the literal and are only read by
    key; the order in which the object lists its keys (["1"], ["3"], ["5"]
    before ["2a"], ["2b"], ["4a"], ["4b"]) plays no part below. *)
Definition levels : list (string * Level) :=
  [ ("1",  mkLevel "1"  "CORNERIA" 1 ["2a"; "2b"] "city" false);
    ("2a", mkLevel "2a" "METEO"    2 ["3"]        "space" false);
    ("2b", mkLevel "2b" "SECTOR Y" 3 ["3"]        "space" false);
    ("3",  mkLevel "3"  "AQUAS"    3 ["4a"; "4b"] "underwater" false);
    ("4a", mkLevel "4a" "ZONESS"   4 ["5"]        "toxic" false);
    ("4b", mkLevel "4b" "MACBETH"  4 ["5"]        "industrial" false);
    ("5",  mkLevel "5"  "VENOM"    5 []           "fortress" true) ].

Definition connections : list Connection :=
  [ mkConnection "1" "2a"; mkConnection "1" "2b";
    mkConnection "2a" "3"; mkConnection "2b" "3";
    mkConnection "3" "4a"; mkConnection "3" "4b";
    mkConnection "4a" "5"; mkConnection "4b" "5" ].

End CAMPAIGN_DATA.

(** [CAMPAIGN_DATA.levels[key]]. *)
Definition levelData (key : string) : Lookup Level :=
  getProperty CAMPAIGN_DATA.levels key.

(** [levelData?.isFinal] as a condition: an inherited member has no
    [isFinal] property, [undefined] short-circuits. *)
Definition levelIsFinal (key : string) : bool :=
  match levelData key with
  | Own l => isFinal l
  | Inherited => false
  | Undefined => false
  end.

(** The result of a computation that may throw a [TypeError]. *)
Inductive Thrown (A : Type) : Type :=
| Returned (a : A)
| TypeError.
Arguments Returned {A} a.
Arguments TypeError {A}.

(** [getAvailableChoices], as a function of the [completedLevels] of the
    render.  Reading [nextChoices] off an inherited member gives [undefined],
    and calling [filter] on it throws. *)
Definition getAvailableChoices (completedLevels : list string)
  : Thrown (list string) :=
  match completedLevels with
  | [] => Returned ["1"]
  | _ :: _ =>
      let lastCompleted := last completedLevels "" in
      match levelData lastCompleted with
      | Undefined => Returned []
      | Inherited => TypeError
      | Own lastLevelData =>
          Returned (filter (fun levelId => negb (includes completedLevels levelId))
                           (nextChoices lastLevelData))
      end
  end.

(** The choices in the words of the specification: the successors of the
    last completed mission without the ids that are already on the
    completed path, in the order of the successors. *)
Fixpoint successorsNotCompleted (completedPath successors : list string)
  : list string :=
  match successors with
  | [] => []
  | id :: rest =>
      if in_dec string_dec id completedPath
      then successorsNotCompleted completedPath rest
      else id :: successorsNotCompleted completedPath rest
  end.

(** ** Wingmen *)

Record Stats : Type := mkStats {
  attack : Z;
  defense : Z;
  support : Z
}.

(** An entry of [WINGMEN_DATA] (without [description] and [portrait]). *)
Record Wingman : Type := mkWingman {
  wingmanId : string;
  wingmanName : string;
  callsign : string;
  specialty : string;
  stats : Stats
}.

Definition WINGMEN_DATA : list Wingman :=
  [ mkWingman "falco"  "FALCO LOMBARDI" "ACE"     "Offensive Support" (mkStats 5 2 3);
    mkWingman "peppy"  "PEPPY HARE"     "VETERAN" "Tactical Advice"   (mkStats 3 3 5);
    mkWingman "slippy" "SLIPPY TOAD"    "TECH"    "Enemy Analysis"    (mkStats 2 4 4) ].

(** The ids of the cards [WingmanChoiceScreen] renders. *)
Definition rosterIds : list string := map wingmanId WINGMEN_DATA.

(** [handleToggle] of [WingmanChoiceScreen]: the value handed to [onSelect],
    or the unchanged selection when neither branch is taken. *)
Definition handleToggle (maxSelections : Z) (selectedWingmen : list string)
  (wingmanId : string) : list string :=
  if includes selectedWingmen wingmanId then
    filter (fun id => negb (String.eqb id wingmanId)) selectedWingmen
  else if Z.of_nat (List.length selectedWingmen) <? maxSelections then
    selectedWingmen ++ [wingmanId]
  else
    selectedWingmen.

(** The [disabled] attribute of the "Confirm Team" button. *)
Definition confirmDisabled (maxSelections : Z) (selectedWingmen : list string)
  : bool :=
  negb (Z.of_nat (List.length selectedWingmen) =? maxSelections).

(** ** New Game+ unlocks *)

Record Unlock : Type := mkUnlock {
  unlockName : string;
  unlockDescription : string
}.

(** [NEW_GAME_PLUS_UNLOCKS].  The keys of the literal are the integers 1..5;
    [Object.entries] lists integer keys in ascending order, and [parseInt]
    of a key gives the integer back, so an entry is kept here with its
    integer key. *)
Definition NEW_GAME_PLUS_UNLOCKS : list (Z * Unlock) :=
  [ (1, mkUnlock "Expert Mode"  "Enemies deal 50% more damage");
    (2, mkUnlock "Hyper Laser"  "Start with upgraded weapons");
    (3, mkUnlock "Stealth Mode" "Reduced enemy detection range");
    (4, mkUnlock "Boss Rush"    "Fight all bosses in sequence");
    (5, mkUnlock "Mirror Mode"  "All levels are mirrored") ].

(** The [unlocks] of [GameCompleteScreen]:
    [Object.entries(..).filter(([level]) => parseInt(level) <= n).map(([, u]) => u)]. *)
Definition unlocks (newGamePlusLevel : Z) : list Unlock :=
  map snd (filter (fun entry => fst entry <=? newGamePlusLevel)
                  NEW_GAME_PLUS_UNLOCKS).

(** The [newUnlock] of [GameCompleteScreen]:
    [NEW_GAME_PLUS_UNLOCKS[newGamePlusLevel]]. *)
Fixpoint lookupTier (table : list (Z * Unlock)) (n : Z) : option Unlock :=
  match table with
  | [] => None
  | (k, u) :: rest => if k =? n then Some u else lookupTier rest n
  end.

Definition newUnlock (newGamePlusLevel : Z) : option Unlock :=
  lookupTier NEW_GAME_PLUS_UNLOCKS newGamePlusLevel.

(** ** Component state and the progress store *)

Inductive Screen : Type :=
| loading | mainMenu | optionsMenu | wingmanChoice | mission
| playing | results | campaignChoice | gameComplete.

Record Options : Type := mkOptions {
  masterVolume : Q;
  musicVolume : Q;
  sfxVolume : Q;
  voiceVolume : Q;
  showFPS : bool;
  screenShake : bool;
  subtitles : bool;
  optDifficulty : string
}.

Definition defaultOptions : Options :=
  mkOptions (8 # 10) (7 # 10) 1 1 false true true "normal".

(** The progress object: the record kept in the store, and also the
    [updates] argument of [saveProgress], where only some properties are
    present. *)
Record Progress : Type := mkProgress {
  savedOptions : option Options;
  savedCurrentLevel : option string;
  savedCompletedLevels : option (list string);
  savedSelectedWingmen : option (list string);
  savedTotalScore : option Z;
  savedCompletedRuns : option Z
}.

Definition noUpdates : Progress :=
  mkProgress None None None None None None.

Definition override {A : Type} (base upd : option A) : option A :=
  match upd with
  | Some v => Some v
  | None => base
  end.

(** The object spread [{ ...base, ...updates }]. *)
Definition spread (base updates : Progress) : Progress :=
  mkProgress
    (override (savedOptions base) (savedOptions updates))
    (override (savedCurrentLevel base) (savedCurrentLevel updates))
    (override (savedCompletedLevels base) (savedCompletedLevels updates))
    (override (savedSelectedWingmen base) (savedSelectedWingmen updates))
    (override (savedTotalScore base) (savedTotalScore updates))
    (override (savedCompletedRuns base) (savedCompletedRuns updates)).

Record WingmanStatus : Type := mkWingmanStatus {
  statusName : string;
  alive : bool
}.

(** The results object the parent passes in [externalLevelResults]. *)
Record Results : Type := mkResults {
  completed : bool;
  score : Z;
  hits : Z;
  accuracy : Z;
  time : string;
  rank : string;
  wingmenStatus : list WingmanStatus;
  bonuses : list string
}.

(** The [useState] cells of [StarfoxMenuSystem]. *)
Record MenuState : Type := mkMenuState {
  screen : Screen;
  gameProgress : option Progress;
  options : Options;
  selectedWingmen : list string;
  currentLevel : string;
  completedLevels : list string;
  totalScore : Z;
  lastResults : option Results
}.

Definition initialState : MenuState :=
  mkMenuState loading None defaultOptions [] "1" [] 0 None.

Definition setScreen (v : Screen) (s : MenuState) : MenuState :=
  mkMenuState v (gameProgress s) (options s) (selectedWingmen s)
    (currentLevel s) (completedLevels s) (totalScore s) (lastResults s).

Definition setGameProgress (v : option Progress) (s : MenuState) : MenuState :=
  mkMenuState (screen s) v (options s) (selectedWingmen s)
    (currentLevel s) (completedLevels s) (totalScore s) (lastResults s).

Definition setOptions (v : Options) (s : MenuState) : MenuState :=
  mkMenuState (screen s) (gameProgress s) v (selectedWingmen s)
    (currentLevel s) (completedLevels s) (totalScore s) (lastResults s).

Definition setSelectedWingmen (v : list string) (s : MenuState) : MenuState :=
  mkMenuState (screen s) (gameProgress s) (options s) v
    (currentLevel s) (completedLevels s) (totalScore s) (lastResults s).

Definition setCurrentLevel (v : string) (s : MenuState) : MenuState :=
  mkMenuState (screen s) (gameProgress s) (options s) (selectedWingmen s)
    v (completedLevels s) (totalScore s) (lastResults s).

Definition setCompletedLevels (v : list string) (s : MenuState) : MenuState :=
  mkMenuState (screen s) (gameProgress s) (options s) (selectedWingmen s)
    (currentLevel s) v (totalScore s) (lastResults s).

Definition setTotalScore (v : Z) (s : MenuState) : MenuState :=
  mkMenuState (screen s) (gameProgress s) (options s) (selectedWingmen s)
    (currentLevel s) (completedLevels s) v (lastResults s).

Definition setLastResults (v : option Results) (s : MenuState) : MenuState :=
  mkMenuState (screen s) (gameProgress s) (options s) (selectedWingmen s)
    (currentLevel s) (completedLevels s) (totalScore s) v.

(** The object store holds at most one record, under the fixed key
    ['currentProgress']. *)
Definition Store : Type := option Progress.

(** The outcome of a store request. *)
Inductive IO : Type := resolved | rejected.

(** [saveGameProgress]: [store.put] replaces the record. *)
Definition saveGameProgress (io : IO) (progress : Progress) (db : Store)
  : option Store :=
  match io with
  | resolved => Some (Some progress)
  | rejected => None
  end.

(** [loadGameProgress]: [request.result || null]. *)
Definition loadGameProgress (io : IO) (db : Store) : option (option Progress) :=
  match io with
  | resolved => Some db
  | rejected => None
  end.

(** [clearGameProgress]: [store.delete] removes the record. *)
Definition clearGameProgress (io : IO) (db : Store) : option Store :=
  match io with
  | resolved => Some None
  | rejected => None
  end.

(** The component together with the store it writes to; [loadPending]
    says that the load started by the mount effect has not settled yet. *)
Record World : Type := mkWorld {
  ui : MenuState;
  db : Store;
  loadPending : bool
}.

Definition onUi (f : MenuState -> MenuState) (w : World) : World :=
  mkWorld (f (ui w)) (db w) (loadPending w).

(** [gameProgress?.completedRuns || 0]. *)
Definition completedRunsOf (gp : option Progress) : Z :=
  match gp with
  | Some p => orZero (savedCompletedRuns p)
  | None => 0
  end.

(** The [newGamePlusLevel] prop of the game-complete screen:
    [gameProgress?.completedRuns || 1]. *)
Definition newGamePlusLevel (s : MenuState) : Z :=
  let runs := match gameProgress s with
              | Some p => orZero (savedCompletedRuns p)
              | None => 0
              end in
  if runs =? 0 then 1 else runs.

(** ** Handlers of [StarfoxMenuSystem] *)

(** The object literal [saveProgress] starts from, read off the state of
    the render the callback belongs to. *)
Definition snapshot (s : MenuState) : Progress :=
  mkProgress (Some (options s)) (Some (currentLevel s))
    (Some (completedLevels s)) (Some (selectedWingmen s))
    (Some (totalScore s)) (Some (completedRunsOf (gameProgress s))).

(** [saveProgress(updates)].  [render] is the state the callback closes
    over; [w] is the world the write lands in.  A rejected write is logged
    and changes nothing. *)
Definition saveProgress (render : MenuState) (io : IO) (updates : Progress)
  (w : World) : World :=
  let progress := spread (snapshot render) updates in
  match saveGameProgress io progress (db w) with
  | Some db' =>
      mkWorld (setGameProgress (Some progress) (ui w)) db' (loadPending w)
  | None => w
  end.

(** The [loadProgress] of the mount effect, from the moment its request
    settles: the saved record and its options are taken over when there is
    a record, and the main menu is shown in every case, also when the
    request rejects. *)
Definition loadProgress (io : IO) (w : World) : World :=
  match loadGameProgress io (db w) with
  | Some (Some saved) =>
      let s1 := setGameProgress (Some saved) (ui w) in
      let s2 := match savedOptions saved with
                | Some o => setOptions o s1
                | None => s1
                end in
      mkWorld (setScreen mainMenu s2) (db w) false
  | Some None => mkWorld (setScreen mainMenu (ui w)) (db w) false
  | None => mkWorld (setScreen mainMenu (ui w)) (db w) false
  end.

(** The effect on [externalLevelResults], run with results present and
    [levelInProgress] false. *)
Definition receiveResults (externalLevelResults : Results) (w : World) : World :=
  onUi (fun s => setScreen results (setLastResults (Some externalLevelResults) s)) w.

Definition handleNewGame (w : World) : World :=
  onUi (fun s =>
          setScreen wingmanChoice
            (setTotalScore 0
               (setCompletedLevels []
                  (setCurrentLevel "1"
                     (setSelectedWingmen [] s))))) w.

Definition handleContinue (w : World) : World :=
  match gameProgress (ui w) with
  | Some gp =>
      onUi (fun s =>
              let s1 := setSelectedWingmen (orEmpty (savedSelectedWingmen gp)) s in
              let s2 := setCurrentLevel (orString (savedCurrentLevel gp) "1") s1 in
              let s3 := setCompletedLevels (orEmpty (savedCompletedLevels gp)) s2 in
              let s4 := setTotalScore (orZero (savedTotalScore gp)) s3 in
              if nonEmpty (savedCompletedLevels gp) then
                setScreen campaignChoice s4
              else if nonEmpty (savedSelectedWingmen gp) then
                setScreen mission s4
              else
                setScreen wingmanChoice s4) w
  | None => w
  end.

Definition handleWingmenConfirm (io : IO) (w : World) : World :=
  let s := ui w in
  let w1 := saveProgress s io
              (mkProgress None None None (Some (selectedWingmen s)) None None) w in
  onUi (setScreen mission) w1.

(** [handleStartMission]; the call of [onStartLevel] goes to the parent. *)
Definition handleStartMission (w : World) : World :=
  onUi (setScreen playing) w.

(** [lastResults?.completed]. *)
Definition resultsCompleted (r : option Results) : bool :=
  match r with
  | Some res => completed res
  | None => false
  end.

(** [lastResults?.score || 0]. *)
Definition resultsScore (r : option Results) : Z :=
  match r with
  | Some res => orZero (Some (score res))
  | None => 0
  end.

Definition handleResultsContinue (io : IO) (w : World) : World :=
  let s := ui w in
  if negb (resultsCompleted (lastResults s)) then
    onUi (setScreen mission) w
  else
    let newCompletedLevels := completedLevels s ++ [currentLevel s] in
    let newTotalScore := jsAdd (totalScore s) (resultsScore (lastResults s)) in
    let w1 := onUi (fun s0 => setTotalScore newTotalScore
                                (setCompletedLevels newCompletedLevels s0)) w in
    if levelIsFinal (currentLevel s) then
      let newCompletedRuns := jsAdd (completedRunsOf (gameProgress s)) 1 in
      let w2 := saveProgress s io
                  (mkProgress None (Some "1") (Some newCompletedLevels) None
                     (Some newTotalScore) (Some newCompletedRuns)) w1 in
      onUi (setScreen gameComplete) w2
    else
      let w2 := saveProgress s io
                  (mkProgress None None (Some newCompletedLevels) None
                     (Some newTotalScore) None) w1 in
      onUi (setScreen campaignChoice) w2.

Definition handleLevelSelect (io : IO) (levelId : string) (w : World) : World :=
  let s := ui w in
  let w1 := onUi (setCurrentLevel levelId) w in
  let w2 := saveProgress s io
              (mkProgress None (Some levelId) None None None None) w1 in
  onUi (setScreen mission) w2.

(** [handleNewGamePlus]: when the awaited delete rejects, the rest of the
    handler does not run. *)
Definition handleNewGamePlus (io : IO) (w : World) : World :=
  match clearGameProgress io (db w) with
  | Some db' =>
      mkWorld (setScreen wingmanChoice
                 (setTotalScore 0
                    (setCompletedLevels []
                       (setCurrentLevel "1"
                          (setSelectedWingmen [] (ui w)))))) db'
        (loadPending w)
  | None => w
  end.

Definition handleMainMenu (w : World) : World :=
  onUi (setScreen mainMenu) w.

(** [onUpdateOptions] of the options screen. *)
Definition handleUpdateOptions (io : IO) (newOptions : Options) (w : World)
  : World :=
  let s := ui w in
  let w1 := onUi (setOptions newOptions) w in
  saveProgress s io (mkProgress (Some newOptions) None None None None None) w1.

(** [onBack] of the mission screen. *)
Definition handleMissionBack (w : World) : World :=
  match completedLevels (ui w) with
  | _ :: _ => onUi (setScreen campaignChoice) w
  | [] => onUi (setScreen wingmanChoice) w
  end.

(** ** The rendered interface

    What the user and the parent can do to the component: each event is
    offered by the screen [renderScreen] shows, and a disabled button or a
    node that is not clickable ignores the click. *)

Inductive Event : Type :=
| Mount (io : IO)  (* the load started on mount settles *)
| ClickNewGame
| ClickContinue
| ClickOptions
| ChangeOptions (newOptions : Options) (io : IO)
| ClickOptionsBack
| ClickWingman (wingmanId : string)
| ClickConfirmTeam (io : IO)
| ClickStartMission
| ClickMissionBack
| LevelEnded (externalLevelResults : Results)
| ClickResultsContinue (io : IO)
| ClickLevel (levelId : string) (io : IO)
| ClickNewGamePlus (io : IO)
| ClickMainMenu.

(** [hasSaveData = !!gameProgress?.selectedWingmen?.length]. *)
Definition hasSaveData (s : MenuState) : bool :=
  match gameProgress s with
  | Some gp => nonEmpty (savedSelectedWingmen gp)
  | None => false
  end.

(** [maxSelections={2}] in [renderScreen]. *)
Definition maxSelections : Z := 2.

Definition clickable (s : MenuState) (levelId : string) : bool :=
  match getAvailableChoices (completedLevels s) with
  | Returned availableChoices => includes availableChoices levelId
  | TypeError => false
  end.

Definition step (e : Event) (w : World) : World :=
  let s := ui w in
  match e, screen s with
  | Mount io, _ => if loadPending w then loadProgress io w else w
  | ClickNewGame, mainMenu => handleNewGame w
  | ClickContinue, mainMenu => if hasSaveData s then handleContinue w else w
  | ClickOptions, mainMenu => onUi (setScreen optionsMenu) w
  | ChangeOptions o io, optionsMenu => handleUpdateOptions io o w
  | ClickOptionsBack, optionsMenu => onUi (setScreen mainMenu) w
  | ClickWingman wid, wingmanChoice =>
      if includes rosterIds wid then
        onUi (setSelectedWingmen
                (handleToggle maxSelections (selectedWingmen s) wid)) w
      else w
  | ClickConfirmTeam io, wingmanChoice =>
      if confirmDisabled maxSelections (selectedWingmen s) then w
      else handleWingmenConfirm io w
  | ClickStartMission, mission => handleStartMission w
  | ClickMissionBack, mission => handleMissionBack w
  | LevelEnded r, _ => receiveResults r w
  | ClickResultsContinue io, results => handleResultsContinue io w
  | ClickLevel levelId io, campaignChoice =>
      if clickable s levelId then handleLevelSelect io levelId w else w
  | ClickNewGamePlus io, gameComplete => handleNewGamePlus io w
  | ClickMainMenu, gameComplete => handleMainMenu w
  | _, _ => w
  end.

Fixpoint run (events : list Event) (w : World) : World :=
  match events with
  | [] => w
  | e :: rest => run rest (step e w)
  end.

(** The component as first rendered, over a given store: the loading
    screen is shown and the load is under way. *)
Definition boot (db0 : Store) : World := mkWorld initialState db0 true.

(** The parent reports the outcome of the mission and the player
    acknowledges the results screen: the effect on [externalLevelResults]
    followed by [handleResultsContinue]. *)
Definition reportOutcome (io : IO) (outcome : Results) (w : World) : World :=
  handleResultsContinue io (receiveResults outcome w).

(** ** Well-formed selections

    The squads the selection screen is meant to hold: no member twice, at
    most [maxSelections] members; and the squads made of roster members. *)

Definition SelectionOk (sel : list string) : Prop :=
  NoDup sel /\ Z.of_nat (List.length sel) <= maxSelections.

Definition FromRoster (sel : list string) : Prop :=
  Forall (fun id => In id rosterIds) sel.

(** A property of selections, read on a record and on the three places a
    selection lives in: the state, its copy of the saved record, the store. *)
Definition RecordSat (P : list string -> Prop) (r : option Progress) : Prop :=
  match r with
  | Some p => P (orEmpty (savedSelectedWingmen p))
  | None => True
  end.

Definition WorldSat (P : list string -> Prop) (w : World) : Prop :=
  P (selectedWingmen (ui w))
  /\ RecordSat P (gameProgress (ui w))
  /\ RecordSat P (db w).

(** The clicks and settings of the user; the other events are the
    settling of the load and a report of the parent. *)
Definition userAction (e : Event) : bool :=
  match e with
  | Mount _ => false
  | LevelEnded _ => false
  | _ => true
  end.

(** Every request the event settles is resolved. *)
Definition requestResolved (e : Event) : Prop :=
  match e with
  | Mount io => io = resolved
  | ChangeOptions _ io => io = resolved
  | ClickConfirmTeam io => io = resolved
  | ClickResultsContinue io => io = resolved
  | ClickLevel _ io => io = resolved
  | ClickNewGamePlus io => io = resolved
  | _ => True
  end.

(** ** One report per mission

    The parent reporting an outcome only for the mission that is being
    played: a report that arrives on any other screen is left out. *)

Definition stepInPlay (e : Event) (w : World) : World :=
  match e, screen (ui w) with
  | LevelEnded _, playing => step e w
  | LevelEnded _, _ => w
  | _, _ => step e w
  end.

Fixpoint runInPlay (events : list Event) (w : World) : World :=
  match events with
  | [] => w
  | e :: rest => runInPlay rest (stepInPlay e w)
  end.

(** With one report per mission nothing happens before the load settles:
    until then the loading screen is shown and no record is held. *)
Definition LoadingOk (w : World) : Prop :=
  loadPending w = true ->
  screen (ui w) = loading /\ gameProgress (ui w) = None
  /\ selectedWingmen (ui w) = [].

(** The copy of the saved record agrees with the store, except on the
    selection screen, which New Game+ reaches with the store emptied. *)
Definition InStep (w : World) : Prop :=
  LoadingOk w
  /\ (loadPending w = false -> screen (ui w) <> wingmanChoice ->
      db w = gameProgress (ui w)).

Definition PathRecordOk (r : option Progress) : Prop :=
  match r with
  | Some p => NoDup (orEmpty (savedCompletedLevels p))
  | None => True
  end.

(** What the screen shown says about the current level. *)
Definition ScreenOk (s : MenuState) : Prop :=
  match screen s with
  | mission | playing | results => ~ In (currentLevel s) (completedLevels s)
  | wingmanChoice => completedLevels s = []
  | _ => True
  end.

Definition PathOk (w : World) : Prop :=
  NoDup (completedLevels (ui w))
  /\ PathRecordOk (gameProgress (ui w))
  /\ PathRecordOk (db w)
  /\ ScreenOk (ui w).

(** ** Sample inputs *)

Definition victory (points : Z) : Results :=
  mkResults true points 42 87 "2:31" "A" [] [].

Definition defeat (points : Z) : Results :=
  mkResults false points 7 35 "0:48" "D" [] [].

(** New game, a squad of two, the first mission launched. *)
Definition toFirstMission : list Event :=
  [ Mount resolved; ClickNewGame; ClickWingman "falco"; ClickWingman "peppy";
    ClickConfirmTeam resolved; ClickStartMission ].

(** Along 1, 2a, 3, 4b, every mission won at first try, up to the launch
    of the final mission 5. *)
Definition toFinalMission : list Event :=
  toFirstMission ++
  [ LevelEnded (victory 1000); ClickResultsContinue resolved;
    ClickLevel "2a" resolved; ClickStartMission;
    LevelEnded (victory 1500); ClickResultsContinue resolved;
    ClickLevel "3" resolved; ClickStartMission;
    LevelEnded (victory 2000); ClickResultsContinue resolved;
    ClickLevel "4b" resolved; ClickStartMission;
    LevelEnded (victory 2500); ClickResultsContinue resolved;
    ClickLevel "5" resolved; ClickStartMission ].

(** A whole run: the final mission won and acknowledged as well. *)
Definition fullRun : list Event :=
  toFinalMission ++
  [ LevelEnded (victory 3000); ClickResultsContinue resolved ].

(** A record written by another client of the exported [saveGameProgress],
    naming a pilot that is not in [WINGMEN_DATA]. *)
Definition foreignRecord : Progress :=
  mkProgress (Some defaultOptions) (Some "1") (Some [])
    (Some ["falco"; "andross"]) (Some 0) (Some 0).

(** A record saved in the middle of a run: level 1 done, level 2a chosen. *)
Definition midRunRecord : Progress :=
  mkProgress (Some defaultOptions) (Some "2a") (Some ["1"])
    (Some ["falco"; "slippy"]) (Some 1000) (Some 0).

(** The first mission won and acknowledged; the campaign map is shown. *)
Definition afterFirstMission : World :=
  run (toFirstMission ++
       [LevelEnded (victory 1000); ClickResultsContinue resolved])
      (boot None).

(** The final mission launched and still being played. *)
Definition inFinalMission : World := run toFinalMission (boot None).

(** The final mission won and acknowledged; the victory screen is shown. *)
Definition afterFullRun : World := run fullRun (boot None).

(** The record three whole runs leave in the store. *)
Definition veteranRecord : Progress :=
  mkProgress (Some defaultOptions) (Some "1")
    (Some ["1"; "2a"; "3"; "4b"; "5"]) (Some ["falco"; "peppy"])
    (Some 30000) (Some 3).

(** A session over that record in which the load and every write fail, up
    to the launch of the final mission. *)
Definition unsavedRun : list Event :=
  [ Mount rejected; ClickNewGame; ClickWingman "falco"; ClickWingman "peppy";
    ClickConfirmTeam rejected; ClickStartMission;
    LevelEnded (victory 1000); ClickResultsContinue rejected;
    ClickLevel "2a" rejected; ClickStartMission;
    LevelEnded (victory 1500); ClickResultsContinue rejected;
    ClickLevel "3" rejected; ClickStartMission;
    LevelEnded (victory 2000); ClickResultsContinue rejected;
    ClickLevel "4b" rejected; ClickStartMission;
    LevelEnded (victory 2500); ClickResultsContinue rejected;
    ClickLevel "5" rejected; ClickStartMission ].

Definition unsavedFinalMission : World :=
  run unsavedRun (boot (Some veteranRecord)).

(** A record with a squad and no completed level whose current level is
    not the entry level. *)
Definition strayRecord : Progress :=
  mkProgress (Some defaultOptions) (Some "3") (Some [])
    (Some ["falco"; "peppy"]) (Some 0) (Some 0).

(** Continue on the foreign record, then back from the briefing to the
    selection screen. *)
Definition backToSelection : World :=
  run [Mount resolved; ClickContinue; ClickMissionBack]
      (boot (Some foreignRecord)).

(** ** The campaign graph *)

(** [CAMPAIGN_DATA.mapPositions]: the map node of each level, in percent. *)
Definition mapPositions : list (string * (Z * Z)) :=
  [ ("1", (10, 50)); ("2a", (30, 25)); ("2b", (30, 75)); ("3", (50, 50));
    ("4a", (70, 25)); ("4b", (70, 75)); ("5", (90, 50)) ].

(** The key names a level of the table. *)
Definition isLevel (key : string) : bool :=
  match levelData key with
  | Own _ => true
  | Inherited => false
  | Undefined => false
  end.

(** The [nextChoices] of a level; none for a key that names no level. *)
Definition nextChoicesOf (key : string) : list string :=
  match levelData key with
  | Own d => nextChoices d
  | Inherited => []
  | Undefined => []
  end.

(** The connection is drawn on the map. *)
Definition isConnection (a b : string) : bool :=
  existsb (fun c => String.eqb (from c) a && String.eqb (to c) b)
          CAMPAIGN_DATA.connections.

(** A path through the graph: every level is a next choice of the one
    before it. *)
Fixpoint chainFrom (prev : string) (path : list string) : bool :=
  match path with
  | [] => true
  | next :: rest => includes (nextChoicesOf prev) next && chainFrom next rest
  end.

(** A path of the campaign: it starts at the entry level ["1"]. *)
Definition validPath (path : list string) : bool :=
  match path with
  | [] => true
  | first :: rest => String.eqb first "1" && chainFrom first rest
  end.

(** The level continues the path: the entry level on the empty path, a next
    choice of the last level otherwise. *)
Definition nextStep (path : list string) (level : string) : bool :=
  match path with
  | [] => String.eqb level "1"
  | _ :: _ => includes (nextChoicesOf (last path "")) level
  end.

(** ** Screens *)

(** [WINGMEN_DATA.find(w => w.id === id)]. *)
Definition findWingman (id : string) : option Wingman :=
  find (fun w => String.eqb (wingmanId w) id) WINGMEN_DATA.

(** [.filter(Boolean)] on an array of objects and [undefined]s. *)
Fixpoint filterBoolean {A : Type} (xs : list (option A)) : list A :=
  match xs with
  | [] => []
  | Some x :: rest => x :: filterBoolean rest
  | None :: rest => filterBoolean rest
  end.

(** The [selectedWingmenData] of [MissionScreen]. *)
Definition selectedWingmenData (wingmen : list string) : list Wingman :=
  filterBoolean (map findWingman wingmen).

(** The four node styles of the campaign map. *)
Inductive NodeStyle : Type :=
| mapNodeCompleted | mapNodeCurrent | mapNodeAvailable | mapNodeLocked.

(** [getNodeStyle] of [CampaignChoiceScreen]. *)
Definition getNodeStyle (currentLevel : string)
  (completedLevels availableChoices : list string) (levelId : string)
  : NodeStyle :=
  if includes completedLevels levelId then mapNodeCompleted
  else if String.eqb levelId currentLevel then mapNodeCurrent
  else if includes availableChoices levelId then mapNodeAvailable
  else mapNodeLocked.

(** The attributes [renderPath] gives to the line of a connection. *)
Record PathLine : Type := mkPathLine {
  stroke : string;
  strokeWidth : Z;
  strokeDasharray : string
}.

(** [renderPath] of [CampaignChoiceScreen] (the end points are looked up in
    [mapPositions], which has every level). *)
Definition renderPath (completedLevels availableChoices : list string)
  (c : Connection) : PathLine :=
  let isCompleted := includes completedLevels (from c)
                     && includes completedLevels (to c) in
  let isAvailable := includes completedLevels (from c)
                     && includes availableChoices (to c) in
  mkPathLine
    (if isCompleted then "#00ff88" else if isAvailable then "#3388ff" else "#333")
    (if isAvailable then 4 else 2)
    (if isAvailable && negb isCompleted then "8,4" else "none").

(** The arguments [handleStartMission] passes to [onStartLevel]:
    the level, and the wingmen, options and completed levels. *)
Definition startLevelCall (s : MenuState)
  : string * (list string * Options * list string) :=
  (currentLevel s, (selectedWingmen s, options s, completedLevels s)).

(** [obj.name] read on the result of a lookup throws on [undefined] only:
    an inherited member is an object. *)
Definition readsOffUndefined (key : string) : bool :=
  match levelData key with
  | Undefined => true
  | Own _ => false
  | Inherited => false
  end.

(** Rendering the screen throws a [TypeError].  The briefing and the
    results screen read [levelData.name] of the current level; the campaign
    map calls [getAvailableChoices] and reads [levelData.name] of every
    choice; the other screens read level data through [?.] or not at all. *)
Definition renderThrows (s : MenuState) : bool :=
  match screen s with
  | mission => readsOffUndefined (currentLevel s)
  | results => readsOffUndefined (currentLevel s)
  | campaignChoice =>
      match getAvailableChoices (completedLevels s) with
      | TypeError => true
      | Returned availableChoices => existsb readsOffUndefined availableChoices
      end
  | _ => false
  end.

(** ** Properties of records and worlds used as invariants *)

(** The levels a record names are levels of the table. *)
Definition RecordLevelsOk (r : option Progress) : Prop :=
  match r with
  | Some p =>
      isLevel (orString (savedCurrentLevel p) "1") = true
      /\ Forall (fun id => isLevel id = true) (orEmpty (savedCompletedLevels p))
  | None => True
  end.

Definition LevelsOk (w : World) : Prop :=
  isLevel (currentLevel (ui w)) = true
  /\ Forall (fun id => isLevel id = true) (completedLevels (ui w))
  /\ RecordLevelsOk (gameProgress (ui w))
  /\ RecordLevelsOk (db w).

(** The completed levels of a record are a path of the campaign, and a
    record without completed levels is at the entry level. *)
Definition RecordChainOk (r : option Progress) : Prop :=
  match r with
  | Some p =>
      validPath (orEmpty (savedCompletedLevels p)) = true
      /\ (orEmpty (savedCompletedLevels p) = [] ->
          orString (savedCurrentLevel p) "1" = "1")
  | None => True
  end.

(** What the screen shown says about the current level and the path. *)
Definition ScreenChainOk (s : MenuState) : Prop :=
  match screen s with
  | mission | playing | results =>
      nextStep (completedLevels s) (currentLevel s) = true
  | wingmanChoice => completedLevels s = []
  | _ => True
  end.

Definition ChainOk (w : World) : Prop :=
  validPath (completedLevels (ui w)) = true
  /\ (completedLevels (ui w) = [] -> currentLevel (ui w) = "1")
  /\ RecordChainOk (gameProgress (ui w))
  /\ RecordChainOk (db w)
  /\ ScreenChainOk (ui w).

(** A record holds no squad or a full one. *)
Definition RecordSquadOk (r : option Progress) : Prop :=
  match r with
  | Some p =>
      orEmpty (savedSelectedWingmen p) = []
      \/ Z.of_nat (List.length (orEmpty (savedSelectedWingmen p))) = maxSelections
  | None => True
  end.

(** What the screen shown says about the size of the squad. *)
Definition ScreenSquadOk (s : MenuState) : Prop :=
  match screen s with
  | loading | mainMenu | optionsMenu =>
      selectedWingmen s = []
      \/ Z.of_nat (List.length (selectedWingmen s)) = maxSelections
  | wingmanChoice => True
  | _ => Z.of_nat (List.length (selectedWingmen s)) = maxSelections
  end.

Definition SquadOk (w : World) : Prop :=
  RecordSquadOk (gameProgress (ui w))
  /\ RecordSquadOk (db w)
  /\ ScreenSquadOk (ui w).

(** Scores that are not negative. *)
Definition RecordScoreOk (r : option Progress) : Prop :=
  match r with
  | Some p => 0 <= orZero (savedTotalScore p)
  | None => True
  end.

Definition ScoreOk (w : World) : Prop :=
  0 <= totalScore (ui w)
  /\ 0 <= resultsScore (lastResults (ui w))
  /\ RecordScoreOk (gameProgress (ui w))
  /\ RecordScoreOk (db w).

(** The parent only reports scores that are not negative. *)
Definition reportsNonNegative (e : Event) : Prop :=
  match e with
  | LevelEnded r => 0 <= score r
  | _ => True
  end.

(** The column of a level on the map: the [x] of its node (0 for a key
    without node). *)
Definition columnOf (key : string) : Z :=
  match ownProperty mapPositions key with
  | Some pos => fst pos
  | None => 0
  end.

(** ** Further sample worlds *)

(** A session in which the parent reports before the load has settled: a
    lost mission at mount, the retry, back to the selection, a squad of
    two, and the campaign played up to the launch of the final mission. *)
Definition beforeTheLoad : list Event :=
  [ LevelEnded (defeat 500); ClickResultsContinue resolved; ClickMissionBack;
    ClickWingman "falco"; ClickWingman "peppy";
    ClickConfirmTeam resolved; ClickStartMission;
    LevelEnded (victory 1000); ClickResultsContinue resolved;
    ClickLevel "2a" resolved; ClickStartMission;
    LevelEnded (victory 1500); ClickResultsContinue resolved;
    ClickLevel "3" resolved; ClickStartMission;
    LevelEnded (victory 2000); ClickResultsContinue resolved;
    ClickLevel "4b" resolved; ClickStartMission;
    LevelEnded (victory 2500); ClickResultsContinue resolved;
    ClickLevel "5" resolved; ClickStartMission ].


(** ** The results screen *)

(** The object [renderScreen] hands to [ResultsScreen] when there are no
    last results. *)
Definition fallbackResults : Results :=
  mkResults true 0 0 0 "0:00" "C" [] [].

(** The [results] prop of [ResultsScreen]: [lastResults || {...}]. *)
Definition resultsShown (s : MenuState) : Results :=
  match lastResults s with
  | Some r => r
  | None => fallbackResults
  end.

(** The title and the button of [ResultsScreen], chosen by [isVictory]. *)
Definition resultsTitle (s : MenuState) : string :=
  if completed (resultsShown s) then "MISSION COMPLETE" else "MISSION FAILED".

Definition resultsButton (s : MenuState) : string :=
  if completed (resultsShown s) then "Continue" else "Retry".

(** ** The results formatter of the integration guide *)



(** * Properties *)

(** ** Helper facts about the JavaScript helpers *)

Lemma includes_In (xs : list string) (x : string) :
  includes xs x = true <-> In x xs.
Proof.
  unfold includes. rewrite existsb_exists. split.
  - intros [y [Hy Heq]]. apply String.eqb_eq in Heq. now subst.
  - intros H. exists x. split; [assumption | apply String.eqb_refl].
Qed.

Lemma includes_not_In (xs : list string) (x : string) :
  includes xs x = false <-> ~ In x xs.
Proof.
  rewrite <- includes_In. destruct (includes xs x); split; congruence.
Qed.

Lemma orZero_Some (n : Z) : orZero (Some n) = n.
Proof.
  unfold orZero. destruct (Z.eqb_spec n 0); congruence.
Qed.

Lemma toDouble_safe (n : Z) : isSafeInteger n -> toDouble n = n.
Proof.
  unfold isSafeInteger, MAX_SAFE_INTEGER, toDouble. intros Hn. cbv zeta.
  assert (He : Z.log2 (Z.abs n) - 52 <= 0).
  { destruct (Z.eq_dec (Z.abs n) 0) as [->|Hne]; [simpl; lia|].
    assert (Hlt : Z.log2 (Z.abs n) < 53); [|lia].
    apply Z.log2_lt_pow2; lia. }
  destruct (Z.leb_spec (Z.log2 (Z.abs n) - 52) 0); [reflexivity | lia].
Qed.

Lemma toDouble_nonneg (n : Z) : 0 <= n -> 0 <= toDouble n.
Proof.
  intros Hn. unfold toDouble. cbv zeta.
  destruct (Z.leb_spec (Z.log2 (Z.abs n) - 52) 0) as [_|He]; [exact Hn|].
  set (ulp := 2 ^ (Z.log2 (Z.abs n) - 52)).
  assert (Hulp : 0 < ulp) by (apply Z.pow_pos_nonneg; lia).
  assert (Hq : 0 <= Z.abs n / ulp) by (apply Z.div_pos; lia).
  apply Z.mul_nonneg_nonneg; [apply Z.sgn_nonneg; exact Hn|].
  apply Z.mul_nonneg_nonneg; [|lia].
  destruct ((ulp / 2 <? Z.abs n mod ulp)
            || (Z.abs n mod ulp =? ulp / 2) && Z.odd (Z.abs n / ulp)); lia.
Qed.

(** Within the safe integers the sum of the source is the exact sum. *)
Lemma jsAdd_safe (a b : Z) : isSafeInteger (a + b) -> jsAdd a b = a + b.
Proof. apply toDouble_safe. Qed.

Lemma jsAdd_nonneg (a b : Z) : 0 <= a -> 0 <= b -> 0 <= jsAdd a b.
Proof. intros Ha Hb. apply toDouble_nonneg. lia. Qed.

(** Above the safe integers the sum is rounded: 2^53 + 1 is 2^53 again. *)
Example jsAdd_rounds : jsAdd (2 ^ 53) 1 = 2 ^ 53.
Proof. vm_compute. reflexivity. Qed.

Lemma last_snoc {A : Type} (xs : list A) (x d : A) : last (xs ++ [x]) d = x.
Proof.
  induction xs as [|y ys IH]; [reflexivity|].
  simpl. destruct (ys ++ [x]) eqn:E.
  - destruct ys; discriminate.
  - exact IH.
Qed.

(** ** Case principles for the interface *)

(** What has to be shown of the handlers to know a property of the world
    after an event: each handler is met under the screen that offers it
    and the guard of its control. *)
Lemma step_cases_ev (P : World -> Prop) (w : World) (e : Event) :
  P w ->
  (forall io, loadPending w = true -> P (loadProgress io w)) ->
  (screen (ui w) = mainMenu -> P (handleNewGame w)) ->
  (screen (ui w) = mainMenu -> hasSaveData (ui w) = true ->
   P (handleContinue w)) ->
  (screen (ui w) = mainMenu -> P (onUi (setScreen optionsMenu) w)) ->
  (forall io o, screen (ui w) = optionsMenu -> P (handleUpdateOptions io o w)) ->
  (screen (ui w) = optionsMenu -> P (onUi (setScreen mainMenu) w)) ->
  (forall wid, screen (ui w) = wingmanChoice -> In wid rosterIds ->
   P (onUi (setSelectedWingmen
              (handleToggle maxSelections (selectedWingmen (ui w)) wid)) w)) ->
  (forall io, screen (ui w) = wingmanChoice ->
   Z.of_nat (List.length (selectedWingmen (ui w))) = maxSelections ->
   P (handleWingmenConfirm io w)) ->
  (screen (ui w) = mission -> P (handleStartMission w)) ->
  (screen (ui w) = mission -> P (handleMissionBack w)) ->
  (forall r, e = LevelEnded r -> P (receiveResults r w)) ->
  (forall io, screen (ui w) = results -> P (handleResultsContinue io w)) ->
  (forall io levelId, screen (ui w) = campaignChoice ->
   clickable (ui w) levelId = true -> P (handleLevelSelect io levelId w)) ->
  (forall io, screen (ui w) = gameComplete -> P (handleNewGamePlus io w)) ->
  (screen (ui w) = gameComplete -> P (handleMainMenu w)) ->
  P (step e w).
Proof.
  intros Hw Hmount Hnew Hcont Hopt Hchg Hback Htog Hconf Hstart Hmback
         Hres Hack Hlvl Hngp Hmain.
  unfold step.
  destruct e as [io| | | |o io| |wid|io| | |r|io|lid io|io|];
    [destruct (loadPending w) eqn:Hp; auto|..];
    destruct (screen (ui w)) eqn:Hs;
    try exact Hw; try (apply Hres; reflexivity); auto.
  - destruct (hasSaveData (ui w)) eqn:Hsave; auto.
  - destruct (includes rosterIds wid) eqn:Hin; [|exact Hw].
    apply Htog; [reflexivity|]. now apply includes_In.
  - unfold confirmDisabled.
    destruct (Z.eqb_spec (Z.of_nat (List.length (selectedWingmen (ui w))))
                maxSelections) as [Heq|Hne]; cbn [negb]; auto.
  - destruct (clickable (ui w) lid) eqn:Hclick; auto.
Qed.

Lemma step_cases (P : World -> Prop) (w : World) :
  P w ->
  (forall io, loadPending w = true -> P (loadProgress io w)) ->
  (screen (ui w) = mainMenu -> P (handleNewGame w)) ->
  (screen (ui w) = mainMenu -> hasSaveData (ui w) = true ->
   P (handleContinue w)) ->
  (screen (ui w) = mainMenu -> P (onUi (setScreen optionsMenu) w)) ->
  (forall io o, screen (ui w) = optionsMenu -> P (handleUpdateOptions io o w)) ->
  (screen (ui w) = optionsMenu -> P (onUi (setScreen mainMenu) w)) ->
  (forall wid, screen (ui w) = wingmanChoice -> In wid rosterIds ->
   P (onUi (setSelectedWingmen
              (handleToggle maxSelections (selectedWingmen (ui w)) wid)) w)) ->
  (forall io, screen (ui w) = wingmanChoice ->
   Z.of_nat (List.length (selectedWingmen (ui w))) = maxSelections ->
   P (handleWingmenConfirm io w)) ->
  (screen (ui w) = mission -> P (handleStartMission w)) ->
  (screen (ui w) = mission -> P (handleMissionBack w)) ->
  (forall r, P (receiveResults r w)) ->
  (forall io, screen (ui w) = results -> P (handleResultsContinue io w)) ->
  (forall io levelId, screen (ui w) = campaignChoice ->
   clickable (ui w) levelId = true -> P (handleLevelSelect io levelId w)) ->
  (forall io, screen (ui w) = gameComplete -> P (handleNewGamePlus io w)) ->
  (screen (ui w) = gameComplete -> P (handleMainMenu w)) ->
  forall e, P (step e w).
Proof.
  intros Hw Hmount Hnew Hcont Hopt Hchg Hback Htog Hconf Hstart Hmback
         Hres Hack Hlvl Hngp Hmain e.
  apply step_cases_ev; auto.
Qed.

(** The same with one report per mission: an outcome only arrives while the
    mission is played. *)
Lemma stepInPlay_cases (P : World -> Prop) (w : World) :
  P w ->
  (forall io, loadPending w = true -> P (loadProgress io w)) ->
  (screen (ui w) = mainMenu -> P (handleNewGame w)) ->
  (screen (ui w) = mainMenu -> hasSaveData (ui w) = true ->
   P (handleContinue w)) ->
  (screen (ui w) = mainMenu -> P (onUi (setScreen optionsMenu) w)) ->
  (forall io o, screen (ui w) = optionsMenu -> P (handleUpdateOptions io o w)) ->
  (screen (ui w) = optionsMenu -> P (onUi (setScreen mainMenu) w)) ->
  (forall wid, screen (ui w) = wingmanChoice -> In wid rosterIds ->
   P (onUi (setSelectedWingmen
              (handleToggle maxSelections (selectedWingmen (ui w)) wid)) w)) ->
  (forall io, screen (ui w) = wingmanChoice ->
   Z.of_nat (List.length (selectedWingmen (ui w))) = maxSelections ->
   P (handleWingmenConfirm io w)) ->
  (screen (ui w) = mission -> P (handleStartMission w)) ->
  (screen (ui w) = mission -> P (handleMissionBack w)) ->
  (forall r, screen (ui w) = playing -> P (receiveResults r w)) ->
  (forall io, screen (ui w) = results -> P (handleResultsContinue io w)) ->
  (forall io levelId, screen (ui w) = campaignChoice ->
   clickable (ui w) levelId = true -> P (handleLevelSelect io levelId w)) ->
  (forall io, screen (ui w) = gameComplete -> P (handleNewGamePlus io w)) ->
  (screen (ui w) = gameComplete -> P (handleMainMenu w)) ->
  forall e, P (stepInPlay e w).
Proof.
  intros Hw Hmount Hnew Hcont Hopt Hchg Hback Htog Hconf Hstart Hmback
         Hres Hack Hlvl Hngp Hmain e.
  assert (Hstep : forall e', (forall r, e' <> LevelEnded r) -> P (step e' w)).
  { intros e' Hne. unfold step.
    destruct e' as [io| | | |o io| |wid|io| | |r|io|lid io|io|];
      try (exfalso; apply (Hne r); reflexivity);
      [destruct (loadPending w) eqn:Hp; auto|..];
      destruct (screen (ui w)) eqn:Hs; try exact Hw; auto.
    - destruct (hasSaveData (ui w)) eqn:Hsave; auto.
    - destruct (includes rosterIds wid) eqn:Hin; [|exact Hw].
      apply Htog; [reflexivity|]. now apply includes_In.
    - unfold confirmDisabled.
      destruct (Z.eqb_spec (Z.of_nat (List.length (selectedWingmen (ui w))))
                  maxSelections) as [Heq|Hne']; cbn [negb]; auto.
    - destruct (clickable (ui w) lid) eqn:Hclick; auto. }
  unfold stepInPlay.
  destruct e as [io| | | |o io| |wid|io| | |r|io|lid io|io|];
    try (apply Hstep; intros r'; discriminate).
  destruct (screen (ui w)) eqn:Hs; try exact Hw.
  pose proof (Hres r eq_refl) as Hr.
  exact Hr.
Qed.

(** ** Available choices *)

Lemma filter_notCompleted (path successors : list string) :
  filter (fun id => negb (includes path id)) successors
  = successorsNotCompleted path successors.
Proof.
  induction successors as [|id rest IH]; [reflexivity|]. simpl.
  destruct (in_dec string_dec id path) as [Hin|Hnin].
  - apply includes_In in Hin. rewrite Hin. exact IH.
  - apply includes_not_In in Hnin. rewrite Hnin. simpl. now f_equal.
Qed.

(** C2: with nothing completed the only choice is the entry mission ["1"].
    Otherwise, when the last completed id is a campaign level, the choices
    are its [nextChoices] without the ids that are already completed, in
    the order of the [nextChoices]: an id is a choice exactly when it is a
    next choice and is not completed.  (A last id that is no campaign level
    gives no choice, or a [TypeError] when it names a member of
    [Object.prototype].)  After ["1"] the choices are ["2a"; "2b"], after
    ["1"; "2a"] they are ["3"]; with ["3"] completed before ["2a"] nothing
    is left, and after ["4a"] followed by ["3"] only ["4b"] is. *)
Theorem getAvailableChoices_spec :
  getAvailableChoices [] = Returned ["1"]
  /\ (forall (done : list string) (lastCompleted : string)
             (lastLevelData : Level),
        levelData lastCompleted = Own lastLevelData ->
        exists choices,
          getAvailableChoices (done ++ [lastCompleted]) = Returned choices
          /\ choices = successorsNotCompleted (done ++ [lastCompleted])
                                              (nextChoices lastLevelData)
          /\ (forall id, In id choices <->
                         In id (nextChoices lastLevelData)
                         /\ ~ In id (done ++ [lastCompleted])))
  /\ (forall (done : list string) (lastCompleted : string),
        levelData lastCompleted = Undefined ->
        getAvailableChoices (done ++ [lastCompleted]) = Returned [])
  /\ (forall (done : list string) (lastCompleted : string),
        levelData lastCompleted = Inherited ->
        getAvailableChoices (done ++ [lastCompleted]) = TypeError)
  /\ getAvailableChoices ["1"] = Returned ["2a"; "2b"]
  /\ getAvailableChoices ["1"; "2a"] = Returned ["3"]
  /\ getAvailableChoices ["3"; "2a"] = Returned []
  /\ getAvailableChoices ["1"; "2b"; "3"; "4a"; "3"] = Returned ["4b"].
Proof.
  assert (Hlast : forall done lastCompleted,
             getAvailableChoices (done ++ [lastCompleted]) =
             match levelData lastCompleted with
             | Own d =>
                 Returned (filter (fun id =>
                                     negb (includes (done ++ [lastCompleted]) id))
                                  (nextChoices d))
             | Inherited => TypeError
             | Undefined => Returned []
             end).
  { intros done lastCompleted. unfold getAvailableChoices.
    destruct (done ++ [lastCompleted]) as [|x xs] eqn:E.
    - destruct done; discriminate.
    - rewrite <- E, last_snoc. reflexivity. }
  split; [reflexivity|]. split; [|split; [|split]].
  - intros done lastCompleted d Hd. rewrite Hlast, Hd.
    eexists. split; [reflexivity|]. split; [apply filter_notCompleted|].
    intros id. rewrite filter_In, negb_true_iff, includes_not_In. tauto.
  - intros done lastCompleted Hd. now rewrite Hlast, Hd.
  - intros done lastCompleted Hd. now rewrite Hlast, Hd.
  - repeat split; vm_compute; reflexivity.
Qed.

Lemma getAvailableChoices_spec_witness :
  levelData "3" = Own (mkLevel "3" "AQUAS" 3 ["4a"; "4b"] "underwater" false)
  /\ exists choices,
       getAvailableChoices (["1"; "2b"; "4a"] ++ ["3"]) = Returned choices
       /\ choices = successorsNotCompleted (["1"; "2b"; "4a"] ++ ["3"])
                                           ["4a"; "4b"]
       /\ (forall id, In id choices <->
                      In id ["4a"; "4b"] /\ ~ In id (["1"; "2b"; "4a"] ++ ["3"])).
Proof.
  destruct getAvailableChoices_spec as (_ & Hlast & _).
  assert (Hd : levelData "3"
               = Own (mkLevel "3" "AQUAS" 3 ["4a"; "4b"] "underwater" false))
    by (vm_compute; reflexivity).
  split; [exact Hd|].
  apply (Hlast ["1"; "2b"; "4a"] "3" _ Hd).
Defined.

(** ** Unlock policy *)

Lemma unlocks_prefix (n : Z) :
  0 <= n -> unlocks n = firstn (Z.to_nat n) (map snd NEW_GAME_PLUS_UNLOCKS).
Proof.
  intros Hn. unfold unlocks, NEW_GAME_PLUS_UNLOCKS. cbn [filter fst snd map].
  destruct (Z.leb_spec 1 n); [|replace n with 0 by lia; reflexivity].
  destruct (Z.leb_spec 2 n); [|replace n with 1 by lia; reflexivity].
  destruct (Z.leb_spec 3 n); [|replace n with 2 by lia; reflexivity].
  destruct (Z.leb_spec 4 n); [|replace n with 3 by lia; reflexivity].
  destruct (Z.leb_spec 5 n); [|replace n with 4 by lia; reflexivity].
  symmetry. apply firstn_all2. simpl. lia.
Qed.

Lemma lookupTier_In (table : list (Z * Unlock)) (n : Z) (u : Unlock) :
  NoDup (map fst table) ->
  (lookupTier table n = Some u <-> In (n, u) table).
Proof.
  induction table as [|[k v] rest IH]; intros Hnd.
  - simpl. split; [discriminate | tauto].
  - simpl in *. inversion Hnd as [|? ? Hk Hrest]; subst.
    destruct (Z.eqb_spec k n) as [->|Hne].
    + split.
      * intros [= ->]. now left.
      * intros [[= ->]|Hin]; [reflexivity|].
        exfalso. apply Hk. change n with (fst (n, u)). now apply in_map.
    + rewrite (IH Hrest). split.
      * intros Hin. now right.
      * intros [[= -> ->]|Hin]; [congruence | assumption].
Qed.

Lemma tiers_NoDup : NoDup (map fst NEW_GAME_PLUS_UNLOCKS).
Proof.
  simpl. repeat constructor; simpl; intuition lia.
Qed.

(** C9: for every run count [n], [unlocks n] holds exactly the configured
    tiers numbered at most [n], in table order (the first [n] of them);
    [newUnlock n] is the tier numbered [n] when the table has one and
    nothing otherwise; above tier 5 nothing is added. *)
Theorem unlocks_spec (n : Z) :
  (forall u, In u (unlocks n) <->
             exists k, In (k, u) NEW_GAME_PLUS_UNLOCKS /\ k <= n)
  /\ (0 <= n -> unlocks n = firstn (Z.to_nat n) (map snd NEW_GAME_PLUS_UNLOCKS))
  /\ (forall u, newUnlock n = Some u <-> In (n, u) NEW_GAME_PLUS_UNLOCKS)
  /\ (newUnlock n = None <-> ~ In n (map fst NEW_GAME_PLUS_UNLOCKS))
  /\ (5 < n -> newUnlock n = None /\ unlocks n = unlocks 5).
Proof.
  split; [|split; [|split; [|split]]].
  - intros u. unfold unlocks. rewrite in_map_iff. split.
    + intros [[k v] [Hsnd Hin]]. simpl in Hsnd. subst v.
      apply filter_In in Hin. destruct Hin as [Hin Hle]. simpl in Hle.
      exists k. split; [assumption | lia].
    + intros [k [Hin Hle]]. exists (k, u). split; [reflexivity|].
      apply filter_In. split; [assumption | simpl; lia].
  - apply unlocks_prefix.
  - intros u. apply lookupTier_In, tiers_NoDup.
  - split.
    + intros Hnone Hin. apply in_map_iff in Hin.
      destruct Hin as [[k u] [Hk Hin]]. simpl in Hk. subst k.
      apply (lookupTier_In _ _ _ tiers_NoDup) in Hin.
      unfold newUnlock in Hnone. congruence.
    + intros Hnot. destruct (newUnlock n) as [u|] eqn:E; [|reflexivity].
      exfalso. apply Hnot. apply (lookupTier_In _ _ _ tiers_NoDup) in E.
      change n with (fst (n, u)). now apply in_map.
  - intros Hn. split.
    + unfold newUnlock, NEW_GAME_PLUS_UNLOCKS. cbn [lookupTier].
      repeat match goal with
             | |- context [?k =? n] => destruct (Z.eqb_spec k n); [lia|]
             end.
      reflexivity.
    + rewrite !unlocks_prefix by lia.
      rewrite !firstn_all2 by (simpl; lia). reflexivity.
Qed.

Lemma unlocks_spec_witness :
  (5 < 7 -> newUnlock 7 = None /\ unlocks 7 = unlocks 5)
  /\ (0 <= 2 -> unlocks 2 = firstn (Z.to_nat 2) (map snd NEW_GAME_PLUS_UNLOCKS)).
Proof.
  split.
  - apply (unlocks_spec 7).
  - apply (unlocks_spec 2).
Defined.

(** ** Wingman selection *)

Lemma filter_out_member (sel : list string) (wid : string) :
  NoDup sel -> In wid sel ->
  exists before after,
    sel = before ++ wid :: after
    /\ filter (fun id => negb (String.eqb id wid)) sel = before ++ after.
Proof.
  induction sel as [|x xs IH]; intros Hnd Hin; [contradiction|].
  inversion Hnd as [|? ? Hx Hxs]; subst. simpl.
  destruct (String.eqb_spec x wid) as [->|Hne].
  - exists [], xs. split; [reflexivity|]. simpl.
    clear IH Hin Hnd Hxs. induction xs as [|y ys IHy]; [reflexivity|].
    simpl. destruct (String.eqb_spec y wid) as [->|_].
    + exfalso. apply Hx. now left.
    + simpl. f_equal. apply IHy. intros H. apply Hx. now right.
  - destruct Hin as [Heq|Hin]; [congruence|].
    destruct (IH Hxs Hin) as [before [after [Hsel Hfil]]].
    exists (x :: before), after. simpl. split; congruence.
Qed.

Lemma handleToggle_ok (sel : list string) (wid : string) :
  SelectionOk sel -> SelectionOk (handleToggle maxSelections sel wid).
Proof.
  intros [Hnd Hlen]. unfold handleToggle.
  destruct (includes sel wid) eqn:Hinc.
  - split.
    + now apply NoDup_filter.
    + pose proof (filter_length_le (fun id => negb (String.eqb id wid)) sel). lia.
  - destruct (Z.ltb_spec (Z.of_nat (List.length sel)) maxSelections) as [Hlt|_].
    + apply includes_not_In in Hinc. split.
      * apply NoDup_app; [assumption | repeat constructor; simpl; tauto |].
        intros a Ha [<-|[]]. contradiction.
      * rewrite length_app. simpl. lia.
    + now split.
Qed.

Lemma SelectionOk_nil : SelectionOk [].
Proof. split; [constructor | unfold maxSelections; simpl; lia]. Qed.

Lemma handleToggle_roster (sel : list string) (wid : string) :
  In wid rosterIds -> FromRoster sel ->
  FromRoster (handleToggle maxSelections sel wid).
Proof.
  intros Hwid Hsel. unfold handleToggle, FromRoster in *.
  destruct (includes sel wid).
  - rewrite Forall_forall in *. intros x Hx.
    apply filter_In in Hx. apply Hsel, Hx.
  - destruct (Z.of_nat (List.length sel) <? maxSelections); [|assumption].
    apply Forall_app. split; [assumption | now constructor].
Qed.

(** Any property of selections that holds of the empty squad and survives
    a toggle of a roster member is an invariant of the component. *)
Section SelectionInvariant.

Variable P : list string -> Prop.
Hypothesis P_nil : P [].
Hypothesis P_toggle :
  forall sel wid, In wid rosterIds -> P sel ->
                  P (handleToggle maxSelections sel wid).

Lemma WorldSat_intro (w : World) :
  P (selectedWingmen (ui w)) ->
  RecordSat P (gameProgress (ui w)) ->
  RecordSat P (db w) ->
  WorldSat P w.
Proof. intros H1 H2 H3. exact (conj H1 (conj H2 H3)). Qed.

Lemma saveProgress_sat (render : MenuState) (io : IO) (updates : Progress)
  (w : World) :
  RecordSat P (Some (spread (snapshot render) updates)) ->
  WorldSat P w -> WorldSat P (saveProgress render io updates w).
Proof.
  intros Hu [Hs [Hg Hd]]. unfold saveProgress.
  destruct io; cbn [saveGameProgress].
  - apply WorldSat_intro; [exact Hs | exact Hu | exact Hu].
  - apply WorldSat_intro; assumption.
Qed.

Lemma setScreen_sat (v : Screen) (w : World) :
  WorldSat P w -> WorldSat P (onUi (setScreen v) w).
Proof. intros H. exact H. Qed.

Lemma step_sat (e : Event) (w : World) : WorldSat P w -> WorldSat P (step e w).
Proof.
  intros Hw. pose proof Hw as [Hs [Hg Hd]].
  apply step_cases; try (intros; exact Hw).
  - (* the load settles *)
    intros io _. unfold loadProgress. destruct io; cbn [loadGameProgress];
      [|exact Hw].
    destruct (db w) as [saved|] eqn:Hdb.
    + destruct (savedOptions saved);
        (apply WorldSat_intro; cbn; [exact Hs | exact Hd | exact Hd]).
    + apply WorldSat_intro; cbn; [exact Hs | exact Hg | exact I].
  - (* new game *)
    intros _. apply WorldSat_intro; [apply P_nil | exact Hg | exact Hd].
  - (* continue *)
    intros _ _. unfold handleContinue.
    destruct (gameProgress (ui w)) as [gp|] eqn:Hgp; [|exact Hw].
    assert (Hsel : P (orEmpty (savedSelectedWingmen gp))) by exact Hg.
    unfold onUi.
    destruct (nonEmpty (savedCompletedLevels gp));
      [|destruct (nonEmpty (savedSelectedWingmen gp))];
      (apply WorldSat_intro; cbn;
       [exact Hsel | rewrite Hgp; exact Hsel | exact Hd]).
  - (* options changed *)
    intros io o _. unfold handleUpdateOptions.
    apply saveProgress_sat; [exact Hs | exact Hw].
  - (* a wingman card *)
    intros wid _ Hin.
    apply WorldSat_intro; [now apply P_toggle | exact Hg | exact Hd].
  - (* confirm team *)
    intros io _ _. unfold handleWingmenConfirm. apply setScreen_sat.
    apply saveProgress_sat; [exact Hs | exact Hw].
  - (* back from the briefing *)
    intros _. unfold handleMissionBack. destruct (completedLevels (ui w)); exact Hw.
  - (* results acknowledged *)
    intros io _. unfold handleResultsContinue.
    destruct (negb (resultsCompleted (lastResults (ui w)))); [exact Hw|].
    destruct (levelIsFinal (currentLevel (ui w)));
      apply setScreen_sat; (apply saveProgress_sat; [exact Hs | exact Hw]).
  - (* a level of the map *)
    intros io levelId _ _. unfold handleLevelSelect. apply setScreen_sat.
    apply saveProgress_sat; [exact Hs | exact Hw].
  - (* New Game+ *)
    intros io _. unfold handleNewGamePlus. destruct io; cbn [clearGameProgress];
      [|exact Hw].
    apply WorldSat_intro; [apply P_nil | exact Hg | exact I].
Qed.

Lemma run_sat (events : list Event) (w : World) :
  WorldSat P w -> WorldSat P (run events w).
Proof.
  revert w. induction events as [|e rest IH]; intros w Hw; [exact Hw|].
  simpl. apply IH. now apply step_sat.
Qed.

Lemma boot_sat (db0 : Store) : RecordSat P db0 -> WorldSat P (boot db0).
Proof.
  intros Hdb. apply WorldSat_intro; [exact P_nil | exact I | exact Hdb].
Qed.

End SelectionInvariant.

(** Over a store whose record names roster members only, only roster
    members are ever selected or saved. *)
Lemma reachable_from_roster (db0 : Store) (events : list Event) :
  RecordSat FromRoster db0 ->
  WorldSat FromRoster (run events (boot db0)).
Proof.
  intros Hdb. apply run_sat.
  - constructor.
  - intros sel wid. apply handleToggle_roster.
  - apply boot_sat; [constructor | exact Hdb].
Qed.

(** C10: in every state the component reaches from its first render, over
    a store whose record (if any) holds a well-formed selection, the
    selected wingmen are pairwise distinct and at most [maxSelections] = 2;
    there, toggling a selected member removes that one member and keeps
    the others in place, and toggling an unselected member of a full
    selection changes nothing. *)
Theorem selection_invariant (db0 : Store) (events : list Event) :
  RecordSat SelectionOk db0 ->
  let sel := selectedWingmen (ui (run events (boot db0))) in
  NoDup sel
  /\ Z.of_nat (List.length sel) <= 2
  /\ (forall wid, In wid sel ->
        exists before after,
          sel = before ++ wid :: after
          /\ handleToggle maxSelections sel wid = before ++ after)
  /\ (forall wid, ~ In wid sel -> Z.of_nat (List.length sel) = 2 ->
        handleToggle maxSelections sel wid = sel).
Proof.
  intros Hdb sel.
  assert (Hok : WorldSat SelectionOk (run events (boot db0))).
  { apply run_sat.
    - apply SelectionOk_nil.
    - intros s0 wid _. apply handleToggle_ok.
    - apply boot_sat; [apply SelectionOk_nil | exact Hdb]. }
  destruct Hok as [[Hnd Hlen] _]. fold sel in Hnd, Hlen.
  split; [exact Hnd|]. split; [exact Hlen|]. split.
  - intros wid Hin.
    destruct (filter_out_member sel wid Hnd Hin) as [before [after [Hsel Hfil]]].
    exists before, after. split; [exact Hsel|].
    unfold handleToggle. apply includes_In in Hin. rewrite Hin. exact Hfil.
  - intros wid Hnin Hfull. unfold handleToggle.
    apply includes_not_In in Hnin. rewrite Hnin.
    destruct (Z.ltb_spec (Z.of_nat (List.length sel)) maxSelections) as [Hlt|_];
      [unfold maxSelections in Hlt; lia | reflexivity].
Qed.

Lemma selection_invariant_witness :
  RecordSat SelectionOk None
  /\ let sel := selectedWingmen
                  (ui (run [Mount resolved; ClickNewGame; ClickWingman "falco";
                            ClickWingman "peppy"; ClickWingman "slippy";
                            ClickWingman "falco"]
                           (boot None))) in
     NoDup sel
     /\ Z.of_nat (List.length sel) <= 2
     /\ (forall wid, In wid sel ->
           exists before after,
             sel = before ++ wid :: after
             /\ handleToggle maxSelections sel wid = before ++ after)
     /\ (forall wid, ~ In wid sel -> Z.of_nat (List.length sel) = 2 ->
           handleToggle maxSelections sel wid = sel).
Proof.
  split; [exact I|].
  apply (selection_invariant None). exact I.
Defined.

(** ** Reporting an outcome *)

Lemma NoDup_snoc {A : Type} (xs : list A) (x : A) :
  NoDup (xs ++ [x]) <-> NoDup xs /\ ~ In x xs.
Proof.
  split.
  - intros H. split.
    + now apply NoDup_app_remove_r in H.
    + apply NoDup_remove_2 in H. now rewrite app_nil_r in H.
  - intros [Hnd Hnin]. apply NoDup_app; [assumption | repeat constructor; simpl; tauto |].
    intros a Ha [<-|[]]. contradiction.
Qed.

Lemma levelIsFinal_iff (key : string) : levelIsFinal key = true <-> key = "5".
Proof.
  split; [|intros ->; reflexivity].
  unfold levelIsFinal, levelData, getProperty, CAMPAIGN_DATA.levels.
  cbn [ownProperty].
  repeat match goal with
         | |- context [String.eqb ?k key] =>
             destruct (String.eqb_spec k key) as [<-|_]; cbn [isFinal];
             [first [discriminate | reflexivity]|]
         end.
  destruct (includes objectPrototypeKeys key); discriminate.
Qed.

(** C7: a failed outcome is recorded as [lastResults] and shown on the
    results screen, with the score, the completed levels, the selected
    wingmen, the current level, the saved copy and the store untouched;
    the retry that follows only changes the screen, to the briefing. *)
Theorem failed_outcome_frame (io : IO) (outcome : Results) (w : World) :
  completed outcome = false ->
  let reported := receiveResults outcome w in
  let retried := handleResultsContinue io reported in
  lastResults (ui reported) = Some outcome
  /\ screen (ui reported) = results
  /\ totalScore (ui reported) = totalScore (ui w)
  /\ completedLevels (ui reported) = completedLevels (ui w)
  /\ selectedWingmen (ui reported) = selectedWingmen (ui w)
  /\ currentLevel (ui reported) = currentLevel (ui w)
  /\ gameProgress (ui reported) = gameProgress (ui w)
  /\ db reported = db w
  /\ retried = onUi (setScreen mission) reported
  /\ screen (ui retried) = mission
  /\ totalScore (ui retried) = totalScore (ui w)
  /\ completedLevels (ui retried) = completedLevels (ui w)
  /\ db retried = db w.
Proof.
  intros Hfail reported retried.
  assert (Hret : retried = onUi (setScreen mission) reported).
  { unfold retried, handleResultsContinue, reported. cbn. now rewrite Hfail. }
  rewrite Hret. repeat split.
Qed.

Lemma failed_outcome_frame_witness :
  completed (defeat 500) = false
  /\ totalScore (ui (handleResultsContinue resolved
                       (receiveResults (defeat 500) afterFirstMission)))
     = totalScore (ui afterFirstMission).
Proof.
  split; [reflexivity|].
  apply (failed_outcome_frame resolved (defeat 500) afterFirstMission).
  reflexivity.
Defined.

Lemma reportOutcome_completed (io : IO) (outcome : Results) (w : World) :
  completed outcome = true ->
  let s := ui w in
  let newCompletedLevels := completedLevels s ++ [currentLevel s] in
  let newTotalScore := jsAdd (totalScore s) (score outcome) in
  let updates :=
    if levelIsFinal (currentLevel s) then
      mkProgress None (Some "1") (Some newCompletedLevels) None
        (Some newTotalScore)
        (Some (jsAdd (completedRunsOf (gameProgress s)) 1))
    else
      mkProgress None None (Some newCompletedLevels) None
        (Some newTotalScore) None in
  reportOutcome io outcome w =
  onUi (setScreen (if levelIsFinal (currentLevel s)
                   then gameComplete else campaignChoice))
    (saveProgress (ui (receiveResults outcome w)) io updates
       (onUi (fun s0 => setTotalScore newTotalScore
                          (setCompletedLevels newCompletedLevels s0))
          (receiveResults outcome w))).
Proof.
  intros Hwin. cbv zeta.
  unfold reportOutcome, handleResultsContinue.
  cbn [receiveResults onUi ui lastResults setScreen setLastResults
       resultsCompleted resultsScore completedLevels currentLevel totalScore
       gameProgress negb].
  rewrite Hwin, orZero_Some. cbn [negb].
  destruct (levelIsFinal (currentLevel (ui w))); reflexivity.
Qed.

Lemma reportOutcome_path (io : IO) (outcome : Results) (w : World) :
  completed outcome = true ->
  completedLevels (ui (reportOutcome io outcome w))
  = completedLevels (ui w) ++ [currentLevel (ui w)].
Proof.
  intros Hwin. rewrite (reportOutcome_completed io outcome w Hwin). cbv zeta.
  destruct io; reflexivity.
Qed.

(** ** One report per mission keeps the path free of repetitions *)

Lemma clickable_not_completed (s : MenuState) (levelId : string) :
  clickable s levelId = true -> ~ In levelId (completedLevels s).
Proof.
  unfold clickable, getAvailableChoices.
  destruct (completedLevels s) as [|x xs] eqn:Hpath.
  - intros _ [].
  - destruct (levelData (last (x :: xs) "")) as [d| |]; try discriminate.
    intros Hinc. apply includes_In in Hinc. apply filter_In in Hinc.
    destruct Hinc as [_ Hneg]. apply negb_true_iff in Hneg.
    now apply includes_not_In in Hneg.
Qed.

Lemma PathOk_intro (w : World) :
  NoDup (completedLevels (ui w)) ->
  PathRecordOk (gameProgress (ui w)) ->
  PathRecordOk (db w) ->
  ScreenOk (ui w) ->
  PathOk w.
Proof. intros H1 H2 H3 H4. exact (conj H1 (conj H2 (conj H3 H4))). Qed.

Lemma saveProgress_path (render : MenuState) (io : IO) (updates : Progress)
  (w : World) (v : Screen) :
  PathRecordOk (Some (spread (snapshot render) updates)) ->
  NoDup (completedLevels (ui w)) ->
  PathRecordOk (gameProgress (ui w)) ->
  PathRecordOk (db w) ->
  ScreenOk (setScreen v (ui w)) ->
  PathOk (onUi (setScreen v) (saveProgress render io updates w)).
Proof.
  intros Hu Hnd Hg Hd Hscr. unfold saveProgress.
  destruct io; cbn [saveGameProgress].
  - apply PathOk_intro; [exact Hnd | exact Hu | exact Hu | exact Hscr].
  - apply PathOk_intro; assumption.
Qed.

Lemma saveProgress_path_same (render : MenuState) (io : IO)
  (updates : Progress) (w : World) :
  PathRecordOk (Some (spread (snapshot render) updates)) ->
  NoDup (completedLevels (ui w)) ->
  PathRecordOk (gameProgress (ui w)) ->
  PathRecordOk (db w) ->
  ScreenOk (ui w) ->
  PathOk (saveProgress render io updates w).
Proof.
  intros Hu Hnd Hg Hd Hscr. unfold saveProgress.
  destruct io; cbn [saveGameProgress].
  - apply PathOk_intro; [exact Hnd | exact Hu | exact Hu | exact Hscr].
  - apply PathOk_intro; assumption.
Qed.

Ltac screen_ok Hs := unfold ScreenOk; cbn; rewrite ?Hs; cbn.

Lemma stepInPlay_path (e : Event) (w : World) :
  PathOk w -> PathOk (stepInPlay e w).
Proof.
  intros Hw. pose proof Hw as (Hnd & Hg & Hd & Hscr).
  unfold ScreenOk in Hscr.
  apply stepInPlay_cases; try exact Hw.
  - (* the load settles *)
    intros io _. unfold loadProgress. destruct io; cbn [loadGameProgress].
    + destruct (db w) as [saved|] eqn:Hdb.
      * destruct (savedOptions saved);
          (apply PathOk_intro; cbn; [exact Hnd | exact Hd | exact Hd | exact I]).
      * apply PathOk_intro; cbn; [exact Hnd | exact Hg | exact I | exact I].
    + apply PathOk_intro; cbn; [exact Hnd | exact Hg | exact Hd | exact I].
  - (* new game *)
    intros _.
    apply PathOk_intro; cbn; [constructor | exact Hg | exact Hd | reflexivity].
  - (* continue *)
    intros _ _. unfold handleContinue.
    destruct (gameProgress (ui w)) as [gp|] eqn:Hgp; [|exact Hw].
    assert (Hrec : NoDup (orEmpty (savedCompletedLevels gp))) by exact Hg.
    unfold onUi.
    destruct (savedCompletedLevels gp) as [[|l ls]|] eqn:Hsaved; cbn [nonEmpty];
      [destruct (nonEmpty (savedSelectedWingmen gp))| |
       destruct (nonEmpty (savedSelectedWingmen gp))];
      (apply PathOk_intro; cbn;
       [ exact Hrec
       | rewrite Hgp; cbn; rewrite Hsaved; exact Hrec
       | exact Hd
       | first [exact I | reflexivity | intros []] ]).
  - (* options *)
    intros _. apply PathOk_intro; cbn; [exact Hnd | exact Hg | exact Hd | exact I].
  - (* options changed *)
    intros io o Hs. unfold handleUpdateOptions.
    apply saveProgress_path_same; assumption.
  - (* back from the options *)
    intros _. apply PathOk_intro; cbn; [exact Hnd | exact Hg | exact Hd | exact I].
  - (* a wingman card *)
    intros wid Hs _. rewrite Hs in Hscr.
    apply PathOk_intro; cbn; [exact Hnd | exact Hg | exact Hd |].
    screen_ok Hs. exact Hscr.
  - (* confirm team *)
    intros io Hs _. rewrite Hs in Hscr. unfold handleWingmenConfirm.
    apply saveProgress_path; try assumption.
    screen_ok Hs. rewrite Hscr. intros [].
  - (* launch *)
    intros Hs. rewrite Hs in Hscr.
    apply PathOk_intro; cbn; [exact Hnd | exact Hg | exact Hd |].
    screen_ok Hs. exact Hscr.
  - (* back from the briefing *)
    intros Hs. unfold handleMissionBack.
    destruct (completedLevels (ui w)) as [|l ls] eqn:Hpath;
      (apply PathOk_intro; cbn; [rewrite Hpath; exact Hnd | exact Hg | exact Hd |]).
    + screen_ok Hs. exact Hpath.
    + exact I.
  - (* the outcome of the mission being played *)
    intros r Hs. rewrite Hs in Hscr.
    apply PathOk_intro; cbn; [exact Hnd | exact Hg | exact Hd |].
    screen_ok Hs. exact Hscr.
  - (* results acknowledged *)
    intros io Hs. rewrite Hs in Hscr. unfold handleResultsContinue.
    destruct (negb (resultsCompleted (lastResults (ui w)))).
    + apply PathOk_intro; cbn; [exact Hnd | exact Hg | exact Hd |].
      screen_ok Hs. exact Hscr.
    + assert (Hnew : NoDup (completedLevels (ui w) ++ [currentLevel (ui w)]))
        by (apply NoDup_snoc; split; assumption).
      destruct (levelIsFinal (currentLevel (ui w)));
        (apply saveProgress_path;
         [exact Hnew | exact Hnew | exact Hg | exact Hd | exact I]).
  - (* a level of the map *)
    intros io levelId Hs Hclick. unfold handleLevelSelect.
    apply saveProgress_path; try assumption.
    screen_ok Hs. now apply clickable_not_completed.
  - (* New Game+ *)
    intros io _. unfold handleNewGamePlus. destruct io; cbn [clearGameProgress];
      [|exact Hw].
    apply PathOk_intro; cbn; [constructor | exact Hg | exact I | reflexivity].
  - (* main menu *)
    intros _. apply PathOk_intro; cbn; [exact Hnd | exact Hg | exact Hd | exact I].
Qed.

(** When every outcome is reported while its mission is being played, the
    completed levels never hold a level twice, whatever the player does and
    whichever writes fail. *)
Lemma single_reports_no_duplicates (db0 : Store) (events : list Event) :
  PathRecordOk db0 ->
  NoDup (completedLevels (ui (runInPlay events (boot db0)))).
Proof.
  intros Hdb.
  assert (Hinv : forall evs w, PathOk w -> PathOk (runInPlay evs w)).
  { induction evs as [|e rest IH]; intros w Hw; [exact Hw|].
    simpl. apply IH. now apply stepInPlay_path. }
  apply (Hinv events (boot db0)).
  apply PathOk_intro; cbn; [constructor | exact I | exact Hdb | exact I].
Qed.



(** ** The copy of the saved record and the store *)

Lemma InStep_intro (w : World) :
  loadPending w = false ->
  (screen (ui w) <> wingmanChoice -> db w = gameProgress (ui w)) ->
  InStep w.
Proof.
  intros Hp He. split; [intros H; congruence | intros _; exact He].
Qed.

(** As long as no request fails and every outcome is reported while its
    mission is played, the copy of the saved record is the record of the
    store on every screen but the selection screen. *)
Lemma stepInPlay_instep (e : Event) (w : World) :
  requestResolved e -> InStep w -> InStep (stepInPlay e w).
Proof.
  intros He Hw. pose proof Hw as [Hload Heq].
  destruct (loadPending w) eqn:Hp.
  - destruct (Hload Hp) as (Hs & Hgp & _).
    unfold stepInPlay, step. rewrite Hs, Hp.
    destruct e as [io| | | |o io| |wid|io| | |r|io|lid io|io|]; try exact Hw.
    cbn in He. subst io. unfold loadProgress. cbn [loadGameProgress].
    destruct (db w) as [saved|] eqn:Hdb.
    + destruct (savedOptions saved); apply InStep_intro; reflexivity.
    + apply InStep_intro; cbn; [reflexivity | intros _; now rewrite Hgp].
  - specialize (Heq eq_refl).
    unfold stepInPlay, step. rewrite Hp.
    destruct e as [io| | | |o io| |wid|io| | |r|io|lid io|io|];
      cbn in He; try subst io;
      destruct (screen (ui w)) eqn:Hs; try exact Hw.
    + (* new game *)
      apply InStep_intro; cbn; [exact Hp | intros Hne; now elim Hne].
    + (* continue *)
      destruct (hasSaveData (ui w)); [|exact Hw].
      unfold handleContinue.
      destruct (gameProgress (ui w)) as [gp|] eqn:Hg; [|exact Hw].
      unfold onUi.
      destruct (nonEmpty (savedCompletedLevels gp));
        [|destruct (nonEmpty (savedSelectedWingmen gp))];
        (apply InStep_intro; cbn;
         [exact Hp | intros _; rewrite Hg; apply Heq; discriminate]).
    + (* options *)
      apply InStep_intro; cbn; [exact Hp | intros _; apply Heq; discriminate].
    + (* options changed *)
      apply InStep_intro; cbn; [exact Hp | reflexivity].
    + (* back from the options *)
      apply InStep_intro; cbn; [exact Hp | intros _; apply Heq; discriminate].
    + (* a wingman card *)
      destruct (includes rosterIds wid); [|exact Hw].
      apply InStep_intro; cbn; [exact Hp | rewrite Hs; intros Hne; now elim Hne].
    + (* confirm team *)
      destruct (confirmDisabled maxSelections (selectedWingmen (ui w)));
        [exact Hw|].
      apply InStep_intro; cbn; [exact Hp | reflexivity].
    + (* launch *)
      apply InStep_intro; cbn; [exact Hp | intros _; apply Heq; discriminate].
    + (* back from the briefing *)
      unfold handleMissionBack. destruct (completedLevels (ui w));
        (apply InStep_intro; cbn;
         [exact Hp | first [intros Hne; now elim Hne
                           | intros _; apply Heq; discriminate]]).
    + (* the outcome of the mission being played *)
      apply InStep_intro; cbn; [exact Hp | intros _; apply Heq; discriminate].
    + (* results acknowledged *)
      unfold handleResultsContinue.
      destruct (negb (resultsCompleted (lastResults (ui w)))).
      * apply InStep_intro; cbn; [exact Hp | intros _; apply Heq; discriminate].
      * destruct (levelIsFinal (currentLevel (ui w)));
          (apply InStep_intro; cbn; [exact Hp | reflexivity]).
    + (* a level of the map *)
      destruct (clickable (ui w) lid); [|exact Hw].
      apply InStep_intro; cbn; [exact Hp | reflexivity].
    + (* New Game+ *)
      apply InStep_intro; cbn; [exact Hp | intros Hne; now elim Hne].
    + (* main menu *)
      apply InStep_intro; cbn; [exact Hp | intros _; apply Heq; discriminate].
Qed.

Lemma runInPlay_instep (db0 : Store) (events : list Event) :
  Forall requestResolved events -> InStep (runInPlay events (boot db0)).
Proof.
  intros Hev.
  assert (Hinv : forall evs w, Forall requestResolved evs ->
                               InStep w -> InStep (runInPlay evs w)).
  { induction evs as [|e rest IH]; intros w Hall Hw; [exact Hw|].
    inversion Hall as [|? ? He Hrest]; subst.
    simpl. apply IH; [exact Hrest|]. now apply stepInPlay_instep. }
  apply Hinv; [exact Hev|].
  split; [intros _; repeat split | discriminate].
Qed.

(** C3, as the code has it: on the final level a completed outcome leads
    to the game-complete screen and writes a record with the entry level
    ["1"] as current level and with the run counter of the copy of the
    saved record (0 without a copy) plus one; the counter of the store
    itself is not read.  When the write resolves the store holds that
    record, so its counter has risen by exactly one if it agreed with the
    counter of the copy before; when the write rejects the store is left as
    it was.  Store and copy do agree in a session in which no request has
    failed and every outcome is reported while its mission is played.  The
    sums are exact within the safe integers. *)
Theorem completed_outcome_final :
  (forall (io : IO) (outcome : Results) (w : World),
      completed outcome = true ->
      levelIsFinal (currentLevel (ui w)) = true ->
      let w' := reportOutcome io outcome w in
      let runs := completedRunsOf (gameProgress (ui w)) in
      screen (ui w') = gameComplete
      /\ completedLevels (ui w') = completedLevels (ui w) ++ [currentLevel (ui w)]
      /\ (io = resolved ->
          exists p, db w' = Some p
                    /\ gameProgress (ui w') = Some p
                    /\ savedCurrentLevel p = Some "1"
                    /\ savedCompletedLevels p
                       = Some (completedLevels (ui w) ++ [currentLevel (ui w)])
                    /\ savedTotalScore p = Some (totalScore (ui w'))
                    /\ (isSafeInteger runs -> isSafeInteger (runs + 1) ->
                        savedCompletedRuns p = Some (runs + 1)
                        /\ completedRunsOf (db w') = runs + 1
                        /\ (completedRunsOf (db w) = runs ->
                            completedRunsOf (db w') = completedRunsOf (db w) + 1)))
      /\ (io = rejected ->
          db w' = db w /\ gameProgress (ui w') = gameProgress (ui w))
      /\ (isSafeInteger (totalScore (ui w)) -> isSafeInteger (score outcome) ->
          isSafeInteger (totalScore (ui w) + score outcome) ->
          totalScore (ui w') = totalScore (ui w) + score outcome))
  /\ (forall (db0 : Store) (events : list Event) (outcome : Results),
         Forall requestResolved events ->
         let w := runInPlay events (boot db0) in
         screen (ui w) = playing ->
         completed outcome = true ->
         levelIsFinal (currentLevel (ui w)) = true ->
         isSafeInteger (completedRunsOf (db w)) ->
         isSafeInteger (completedRunsOf (db w) + 1) ->
         completedRunsOf (db (reportOutcome resolved outcome w))
         = completedRunsOf (db w) + 1).
Proof.
  assert (Hstep : forall (outcome : Results) (w : World),
             completed outcome = true ->
             levelIsFinal (currentLevel (ui w)) = true ->
             isSafeInteger (completedRunsOf (gameProgress (ui w)) + 1) ->
             completedRunsOf (db (reportOutcome resolved outcome w))
             = completedRunsOf (gameProgress (ui w)) + 1).
  { intros outcome w Hwin Hfin Hsafe.
    rewrite (reportOutcome_completed resolved outcome w Hwin). cbv zeta.
    rewrite Hfin, (jsAdd_safe _ _ Hsafe). exact (orZero_Some _). }
  split.
  - intros io outcome w Hwin Hfin w' runs.
    pose proof (Hstep outcome w Hwin Hfin) as Hdb.
    unfold w'. unfold w' in Hdb. fold runs in Hdb.
    rewrite (reportOutcome_completed io outcome w Hwin) in *. cbv zeta in *.
    rewrite Hfin in *. fold runs.
    destruct io; cbn.
    + split; [reflexivity|]. split; [reflexivity|]. split; [|split].
      * intros _. eexists. split; [reflexivity|]. split; [reflexivity|].
        split; [reflexivity|]. split; [reflexivity|]. split; [reflexivity|].
        intros _ Hsafe. rewrite (jsAdd_safe _ _ Hsafe).
        split; [reflexivity|]. split; [exact (orZero_Some _)|].
        intros ->. exact (orZero_Some _).
      * discriminate.
      * intros _ _ Hsum. now rewrite (jsAdd_safe _ _ Hsum).
    + split; [reflexivity|]. split; [reflexivity|]. split; [discriminate|].
      split; [intros _; split; reflexivity|].
      intros _ _ Hsum. now rewrite (jsAdd_safe _ _ Hsum).
  - intros db0 events outcome Hev w Hs Hwin Hfin _ Hsafe.
    destruct (runInPlay_instep db0 events Hev) as [Hload Heq]. fold w in Hload, Heq.
    assert (Hp : loadPending w = false).
    { destruct (loadPending w) eqn:Hpend; [|reflexivity].
      destruct (Hload Hpend) as [Hl _]. congruence. }
    assert (Hsame : db w = gameProgress (ui w))
      by (apply Heq; [exact Hp | rewrite Hs; discriminate]).
    rewrite Hsame in *. now apply Hstep.
Qed.

Lemma completed_outcome_final_witness :
  completed (victory 3000) = true
  /\ levelIsFinal (currentLevel (ui inFinalMission)) = true
  /\ screen (ui (reportOutcome resolved (victory 3000) inFinalMission))
     = gameComplete
  /\ Forall requestResolved toFinalMission
  /\ screen (ui (runInPlay toFinalMission (boot None))) = playing
  /\ levelIsFinal (currentLevel (ui (runInPlay toFinalMission (boot None))))
     = true
  /\ isSafeInteger (completedRunsOf (db (runInPlay toFinalMission (boot None))))
  /\ isSafeInteger
       (completedRunsOf (db (runInPlay toFinalMission (boot None))) + 1)
  /\ completedRunsOf
       (db (reportOutcome resolved (victory 3000)
              (runInPlay toFinalMission (boot None))))
     = completedRunsOf (db (runInPlay toFinalMission (boot None))) + 1.
Proof.
  destruct completed_outcome_final as [Hstep Hflow].
  assert (Hwin : completed (victory 3000) = true) by reflexivity.
  assert (Hfin : levelIsFinal (currentLevel (ui inFinalMission)) = true)
    by (vm_compute; reflexivity).
  assert (Hev : Forall requestResolved toFinalMission).
  { unfold toFinalMission, toFirstMission. cbn [app].
    repeat constructor. }
  assert (Hs : screen (ui (runInPlay toFinalMission (boot None))) = playing)
    by (vm_compute; reflexivity).
  assert (Hfin' : levelIsFinal
                    (currentLevel (ui (runInPlay toFinalMission (boot None))))
                  = true) by (vm_compute; reflexivity).
  assert (Hr : isSafeInteger
                 (completedRunsOf (db (runInPlay toFinalMission (boot None)))))
    by (vm_compute; split; discriminate).
  assert (Hr' : isSafeInteger
                  (completedRunsOf (db (runInPlay toFinalMission (boot None))) + 1))
    by (vm_compute; split; discriminate).
  split; [exact Hwin|]. split; [exact Hfin|]. split.
  - apply (Hstep resolved (victory 3000) inFinalMission Hwin Hfin).
  - split; [exact Hev|]. split; [exact Hs|]. split; [exact Hfin'|].
    split; [exact Hr|]. split; [exact Hr'|].
    apply (Hflow None toFinalMission (victory 3000) Hev Hs Hwin Hfin' Hr Hr').
Defined.

(** C3 fails as stated: over a store whose record counts three runs, in a
    session whose load and writes failed up to the final mission, the
    write of the final victory resolves and leaves a record that counts
    one run: the counter of the store goes from 3 to 1. *)
Lemma stale_counter_overwritten :
  screen (ui unsavedFinalMission) = playing
  /\ levelIsFinal (currentLevel (ui unsavedFinalMission)) = true
  /\ completed (victory 3000) = true
  /\ completedRunsOf (db unsavedFinalMission) = 3
  /\ screen (ui (reportOutcome resolved (victory 3000) unsavedFinalMission))
     = gameComplete
  /\ completedRunsOf
       (db (reportOutcome resolved (victory 3000) unsavedFinalMission)) = 1
  /\ completedRunsOf
       (db (reportOutcome resolved (victory 3000) unsavedFinalMission))
     <> completedRunsOf (db unsavedFinalMission) + 1.
Proof.
  split; [vm_compute; reflexivity|]. split; [vm_compute; reflexivity|].
  split; [reflexivity|]. split; [vm_compute; reflexivity|].
  split; [vm_compute; reflexivity|]. split; [vm_compute; reflexivity|].
  vm_compute. discriminate.
Qed.

(** C1, as the code has it: a completed outcome is never turned down.  The
    current level is appended to the completed levels and the score is
    added (exactly, within the safe integers) whether or not the level is
    already among them, so the completed levels stay free of repetitions
    exactly when they were and the current level is new.  They do stay
    free of repetitions when every outcome is reported while its mission is
    being played. *)
Theorem completed_outcome_appends :
  (forall (io : IO) (outcome : Results) (w : World),
      completed outcome = true ->
      let w' := reportOutcome io outcome w in
      completedLevels (ui w') = completedLevels (ui w) ++ [currentLevel (ui w)]
      /\ (isSafeInteger (totalScore (ui w)) -> isSafeInteger (score outcome) ->
          isSafeInteger (totalScore (ui w) + score outcome) ->
          totalScore (ui w') = totalScore (ui w) + score outcome)
      /\ (NoDup (completedLevels (ui w')) <->
          NoDup (completedLevels (ui w))
          /\ ~ In (currentLevel (ui w)) (completedLevels (ui w))))
  /\ (forall (db0 : Store) (events : list Event),
         PathRecordOk db0 ->
         NoDup (completedLevels (ui (runInPlay events (boot db0))))).
Proof.
  split; [|exact single_reports_no_duplicates].
  intros io outcome w Hwin w'.
  assert (Hpath : completedLevels (ui w')
                  = completedLevels (ui w) ++ [currentLevel (ui w)])
    by (now apply reportOutcome_path).
  split; [exact Hpath|]. split.
  - intros _ _ Hsum. unfold w'.
    rewrite (reportOutcome_completed io outcome w Hwin). cbv zeta.
    rewrite <- (jsAdd_safe _ _ Hsum). destruct io; reflexivity.
  - rewrite Hpath. apply NoDup_snoc.
Qed.

Lemma completed_outcome_appends_witness :
  completed (victory 1000) = true
  /\ completedLevels (ui (reportOutcome resolved (victory 1000) afterFirstMission))
     = completedLevels (ui afterFirstMission)
       ++ [currentLevel (ui afterFirstMission)]
  /\ PathRecordOk None
  /\ NoDup (completedLevels (ui (runInPlay fullRun (boot None)))).
Proof.
  destruct completed_outcome_appends as [Happend Hflow].
  assert (Hwin : completed (victory 1000) = true) by reflexivity.
  split; [exact Hwin|]. split.
  - apply (Happend resolved (victory 1000) afterFirstMission Hwin).
  - split; [exact I|]. apply (Hflow None fullRun). exact I.
Defined.

(** C1 fails as stated: with level ["1"] completed and still current, a
    second completed outcome for it is accepted; the level is listed twice
    and its score is counted twice. *)
Lemma duplicate_completion_accepted :
  completed (victory 1000) = true
  /\ completedLevels (ui afterFirstMission) = ["1"]
  /\ In (currentLevel (ui afterFirstMission))
        (completedLevels (ui afterFirstMission))
  /\ run [LevelEnded (victory 1000); ClickResultsContinue resolved]
         afterFirstMission
     <> afterFirstMission
  /\ completedLevels
       (ui (run [LevelEnded (victory 1000); ClickResultsContinue resolved]
                afterFirstMission)) = ["1"; "1"]
  /\ totalScore
       (ui (run [LevelEnded (victory 1000); ClickResultsContinue resolved]
                afterFirstMission)) = 2000
  /\ ~ NoDup (completedLevels
                (ui (run [LevelEnded (victory 1000); ClickResultsContinue resolved]
                         afterFirstMission))).
Proof.
  split; [reflexivity|].
  split; [vm_compute; reflexivity|].
  split; [vm_compute; now left|].
  split; [|split; [vm_compute; reflexivity|split; [vm_compute; reflexivity|]]].
  - intros Heq. apply (f_equal (fun x => totalScore (ui x))) in Heq.
    vm_compute in Heq. discriminate.
  - intros Hnd. vm_compute in Hnd. inversion Hnd as [|? ? Hnin _].
    apply Hnin. now left.
Qed.

(** ** Continue *)

(** C5: Continue copies the selected wingmen, the completed levels and the
    total score of the saved record into the state, and its current level
    (the entry level ["1"] when that is missing or empty); the screen is the
    campaign map when the record has completed levels, else the briefing
    when it has selected wingmen, else the wingman selection.  The saved
    copy, the options and the store are untouched. *)
Theorem handleContinue_spec (w : World) (gp : Progress) :
  gameProgress (ui w) = Some gp ->
  let w' := handleContinue w in
  selectedWingmen (ui w') = orEmpty (savedSelectedWingmen gp)
  /\ completedLevels (ui w') = orEmpty (savedCompletedLevels gp)
  /\ totalScore (ui w') = orZero (savedTotalScore gp)
  /\ currentLevel (ui w') = orString (savedCurrentLevel gp) "1"
  /\ (forall squad, savedSelectedWingmen gp = Some squad ->
                    selectedWingmen (ui w') = squad)
  /\ (forall path, savedCompletedLevels gp = Some path ->
                   completedLevels (ui w') = path)
  /\ (forall total, savedTotalScore gp = Some total ->
                    totalScore (ui w') = total)
  /\ (forall level, savedCurrentLevel gp = Some level -> level <> "" ->
                    currentLevel (ui w') = level)
  /\ screen (ui w') =
     match orEmpty (savedCompletedLevels gp),
           orEmpty (savedSelectedWingmen gp) with
     | _ :: _, _ => campaignChoice
     | [], _ :: _ => mission
     | [], [] => wingmanChoice
     end
  /\ gameProgress (ui w') = Some gp
  /\ options (ui w') = options (ui w)
  /\ lastResults (ui w') = lastResults (ui w)
  /\ db w' = db w.
Proof.
  intros Hgp w'. unfold w', handleContinue. rewrite Hgp.
  assert (Hscr : forall s,
             screen (if nonEmpty (savedCompletedLevels gp)
                     then setScreen campaignChoice s
                     else if nonEmpty (savedSelectedWingmen gp)
                          then setScreen mission s
                          else setScreen wingmanChoice s)
             = match orEmpty (savedCompletedLevels gp),
                     orEmpty (savedSelectedWingmen gp) with
               | _ :: _, _ => campaignChoice
               | [], _ :: _ => mission
               | [], [] => wingmanChoice
               end).
  { intros s. destruct (savedCompletedLevels gp) as [[|? ?]|];
      destruct (savedSelectedWingmen gp) as [[|? ?]|]; reflexivity. }
  assert (Hrest : forall s,
             let s' := if nonEmpty (savedCompletedLevels gp)
                       then setScreen campaignChoice s
                       else if nonEmpty (savedSelectedWingmen gp)
                            then setScreen mission s
                            else setScreen wingmanChoice s in
             selectedWingmen s' = selectedWingmen s
             /\ completedLevels s' = completedLevels s
             /\ totalScore s' = totalScore s
             /\ currentLevel s' = currentLevel s
             /\ gameProgress s' = gameProgress s
             /\ options s' = options s
             /\ lastResults s' = lastResults s).
  { intros s. cbv zeta. destruct (nonEmpty (savedCompletedLevels gp));
      [|destruct (nonEmpty (savedSelectedWingmen gp))]; repeat split. }
  cbn [onUi ui db].
  match goal with
  | |- context [if nonEmpty (savedCompletedLevels gp)
                then setScreen campaignChoice ?s else _] =>
      specialize (Hscr s); specialize (Hrest s); cbv zeta in Hrest
  end.
  destruct Hrest as (H1 & H2 & H3 & H4 & H5 & H6 & H7).
  rewrite H1, H2, H3, H4, H5, H6, H7, Hscr. cbn.
  repeat split; try assumption.
  - intros squad ->. reflexivity.
  - intros path ->. reflexivity.
  - intros total ->. exact (orZero_Some _).
  - intros level -> Hne. destruct level; [congruence | reflexivity].
Qed.

Lemma handleContinue_spec_witness :
  gameProgress (ui (run [Mount resolved] (boot (Some midRunRecord))))
  = Some midRunRecord
  /\ screen (ui (handleContinue
                   (run [Mount resolved] (boot (Some midRunRecord)))))
     = campaignChoice
  /\ completedLevels (ui (handleContinue
                            (run [Mount resolved] (boot (Some midRunRecord)))))
     = ["1"].
Proof.
  assert (Hgp : gameProgress (ui (run [Mount resolved] (boot (Some midRunRecord))))
                = Some midRunRecord) by (vm_compute; reflexivity).
  split; [exact Hgp|].
  pose proof (handleContinue_spec
                (run [Mount resolved] (boot (Some midRunRecord)))
                midRunRecord Hgp) as H.
  cbv zeta in H. destruct H as (_ & _ & _ & _ & _ & Hpath & _ & _ & Hscr & _).
  split.
  - rewrite Hscr. vm_compute. reflexivity.
  - apply Hpath. vm_compute. reflexivity.
Defined.

(** ** New Game+ *)

(** C4, as the code has it: New Game+ deletes the saved record and writes
    none.  When the delete resolves, the store is empty, the run fields of
    the state are reset (no wingmen, level ["1"], no completed levels, score
    0) and the selection screen is shown, while the options and the copy of
    the last saved record stay in the state; the next write that resolves
    stores a record with the run counter of that copy and those options.
    When the delete rejects, nothing changes. *)
Theorem handleNewGamePlus_spec (io : IO) (w : World) :
  let w' := handleNewGamePlus io w in
  (io = resolved ->
     db w' = None
     /\ selectedWingmen (ui w') = []
     /\ currentLevel (ui w') = "1"
     /\ completedLevels (ui w') = []
     /\ totalScore (ui w') = 0
     /\ screen (ui w') = wingmanChoice
     /\ gameProgress (ui w') = gameProgress (ui w)
     /\ options (ui w') = options (ui w)
     /\ lastResults (ui w') = lastResults (ui w)
     /\ forall updates,
          savedCompletedRuns updates = None ->
          savedOptions updates = None ->
          exists p,
            db (saveProgress (ui w') resolved updates w') = Some p
            /\ savedCompletedRuns p
               = Some (completedRunsOf (gameProgress (ui w)))
            /\ savedOptions p = Some (options (ui w)))
  /\ (io = rejected -> w' = w).
Proof.
  intros w'. unfold w', handleNewGamePlus. destruct io; cbn.
  - split; [|discriminate]. intros _. repeat split.
    intros updates Hruns Hopts. eexists. split; [reflexivity|].
    cbn. rewrite Hruns, Hopts. split; reflexivity.
  - split; [discriminate|]. reflexivity.
Qed.

Lemma handleNewGamePlus_spec_witness :
  resolved = resolved
  /\ db (handleNewGamePlus resolved afterFullRun) = None
  /\ screen (ui (handleNewGamePlus resolved afterFullRun)) = wingmanChoice.
Proof.
  split; [reflexivity|].
  pose proof (handleNewGamePlus_spec resolved afterFullRun) as H.
  cbv zeta in H. destruct H as [H _]. specialize (H eq_refl).
  split; apply H.
Defined.

(** C4 fails as stated: after a whole run the store holds a record with
    one completed run and the options; New Game+ leaves no record in the
    store, so neither is kept there. *)
Lemma newGamePlus_deletes_record :
  screen (ui afterFullRun) = gameComplete
  /\ (exists p, db afterFullRun = Some p
                /\ savedCompletedRuns p = Some 1
                /\ savedOptions p = Some defaultOptions)
  /\ db (step (ClickNewGamePlus resolved) afterFullRun) = None
  /\ ~ (exists p, db (step (ClickNewGamePlus resolved) afterFullRun) = Some p
                  /\ savedCompletedRuns p = Some 1).
Proof.
  split; [vm_compute; reflexivity|]. split; [|split].
  - vm_compute. eexists. repeat split.
  - vm_compute. reflexivity.
  - intros [p [Hp _]]. vm_compute in Hp. discriminate.
Qed.

(** ** Confirming the squad *)

(** C8, as the code has it: on the selection screen the Confirm button is
    disabled unless exactly [maxSelections] = 2 wingmen are selected, and a
    click on it then changes nothing; with exactly two selected, whoever
    they are, the click shows the briefing and writes the selection, which
    lands in the store when the write resolves.  No error is raised and
    the roster is not consulted; the cards of the screen only toggle roster
    members, so over a store that names roster members only, every
    selection is made of roster members. *)
Theorem confirmTeam_spec :
  (forall (io : IO) (w : World),
      screen (ui w) = wingmanChoice ->
      let w' := step (ClickConfirmTeam io) w in
      (Z.of_nat (List.length (selectedWingmen (ui w))) <> 2 -> w' = w)
      /\ (Z.of_nat (List.length (selectedWingmen (ui w))) = 2 ->
          screen (ui w') = mission
          /\ selectedWingmen (ui w') = selectedWingmen (ui w)
          /\ completedLevels (ui w') = completedLevels (ui w)
          /\ currentLevel (ui w') = currentLevel (ui w)
          /\ totalScore (ui w') = totalScore (ui w)
          /\ (io = resolved ->
              exists p, db w' = Some p
                        /\ gameProgress (ui w') = Some p
                        /\ savedSelectedWingmen p
                           = Some (selectedWingmen (ui w)))
          /\ (io = rejected ->
              db w' = db w /\ gameProgress (ui w') = gameProgress (ui w))))
  /\ (forall (db0 : Store) (events : list Event),
         RecordSat FromRoster db0 ->
         Forall (fun id => In id rosterIds)
                (selectedWingmen (ui (run events (boot db0))))).
Proof.
  split.
  - intros io w Hscr w'. unfold w', step. rewrite Hscr.
    unfold confirmDisabled, maxSelections.
    destruct (Z.eqb_spec (Z.of_nat (List.length (selectedWingmen (ui w)))) 2)
      as [Heq|Hne]; cbn [negb].
    + split; [intros Hc; contradiction|]. intros _.
      unfold handleWingmenConfirm. destruct io; cbn.
      * repeat split; try discriminate. intros _. eexists. repeat split.
      * repeat split; discriminate.
    + split; [reflexivity|]. intros Hc. contradiction.
  - intros db0 events Hdb.
    exact (proj1 (reachable_from_roster db0 events Hdb)).
Qed.

Lemma confirmTeam_spec_witness :
  screen (ui backToSelection) = wingmanChoice
  /\ Z.of_nat (List.length (selectedWingmen (ui backToSelection))) = 2
  /\ screen (ui (step (ClickConfirmTeam resolved) backToSelection)) = mission
  /\ RecordSat FromRoster None
  /\ Forall (fun id => In id rosterIds)
            (selectedWingmen (ui (run toFirstMission (boot None)))).
Proof.
  destruct confirmTeam_spec as [Hconfirm Hroster].
  assert (Hscr : screen (ui backToSelection) = wingmanChoice)
    by (vm_compute; reflexivity).
  assert (Hlen : Z.of_nat (List.length (selectedWingmen (ui backToSelection))) = 2)
    by (vm_compute; reflexivity).
  split; [exact Hscr|]. split; [exact Hlen|]. split.
  - pose proof (Hconfirm resolved backToSelection Hscr) as H.
    cbv zeta in H. destruct H as [_ H]. apply (H Hlen).
  - split; [exact I|]. apply (Hroster None toFirstMission). exact I.
Defined.

(** C8 fails as stated: a squad of two with a pilot that is not in the
    roster is confirmed, shown the briefing and saved. *)
Lemma unknown_member_confirmed :
  screen (ui backToSelection) = wingmanChoice
  /\ selectedWingmen (ui backToSelection) = ["falco"; "andross"]
  /\ includes rosterIds "andross" = false
  /\ step (ClickConfirmTeam resolved) backToSelection <> backToSelection
  /\ screen (ui (step (ClickConfirmTeam resolved) backToSelection)) = mission
  /\ (exists p, db (step (ClickConfirmTeam resolved) backToSelection) = Some p
                /\ savedSelectedWingmen p = Some ["falco"; "andross"]).
Proof.
  split; [vm_compute; reflexivity|].
  split; [vm_compute; reflexivity|].
  split; [vm_compute; reflexivity|].
  split; [|split; [vm_compute; reflexivity|]].
  - intros Heq. apply (f_equal (fun x => screen (ui x))) in Heq.
    vm_compute in Heq. discriminate.
  - vm_compute. eexists. split; reflexivity.
Qed.

(** ** Sample runs *)

(** The sample run reports every outcome while its mission is played. *)
Example fullRun_in_play : runInPlay fullRun (boot None) = afterFullRun.
Proof. vm_compute. reflexivity. Qed.

(** On the victory screen of a first run the highlighted unlock is tier 1. *)
Example first_victory_unlock :
  newUnlock (newGamePlusLevel (ui afterFullRun))
  = Some (mkUnlock "Expert Mode" "Enemies deal 50% more damage").
Proof. vm_compute. reflexivity. Qed.

(** * Further properties *)

(** ** The campaign graph *)

Lemma ownProperty_In {A : Type} (obj : list (string * A)) (key : string) (v : A) :
  ownProperty obj key = Some v -> In (key, v) obj.
Proof.
  induction obj as [|[k a] rest IH]; simpl; [discriminate|].
  destruct (String.eqb_spec k key) as [->|_].
  - intros [= ->]. now left.
  - intros H. right. now apply IH.
Qed.

Lemma levelData_Own_In (key : string) (d : Level) :
  levelData key = Own d -> In (key, d) CAMPAIGN_DATA.levels.
Proof.
  unfold levelData, getProperty.
  destruct (ownProperty CAMPAIGN_DATA.levels key) as [v|] eqn:Hown.
  - intros [= ->]. now apply ownProperty_In.
  - destruct (includes objectPrototypeKeys key); discriminate.
Qed.

Lemma isLevel_Own (key : string) :
  isLevel key = true <-> exists d, levelData key = Own d.
Proof.
  unfold isLevel. destruct (levelData key) as [d| |]; split;
    try discriminate; try (intros [d' H]; discriminate).
  - intros _. now exists d.
  - reflexivity.
Qed.

Lemma nextChoices_checked :
  forallb (fun entry =>
             match nextChoices (snd entry) with
             | [] => true
             | [a] => true
             | [a; b] => negb (String.eqb a b)
             | _ => false
             end
             && forallb (fun b => isLevel b
                                  && (columnOf b =? columnOf (fst entry) + 20)
                                  && isConnection (fst entry) b)
                        (nextChoices (snd entry)))
          CAMPAIGN_DATA.levels = true.
Proof. vm_compute. reflexivity. Qed.

Lemma nextChoicesOf_checked (a b : string) :
  In b (nextChoicesOf a) ->
  isLevel a = true /\ isLevel b = true
  /\ columnOf b = columnOf a + 20 /\ isConnection a b = true.
Proof.
  unfold nextChoicesOf. intros Hin.
  destruct (levelData a) as [d| |] eqn:Ha; try contradiction.
  split; [apply isLevel_Own; now exists d|].
  pose proof nextChoices_checked as Hall. rewrite forallb_forall in Hall.
  specialize (Hall (a, d) (levelData_Own_In a d Ha)). cbn [fst snd] in Hall.
  apply andb_true_iff in Hall. destruct Hall as [_ Hall].
  rewrite forallb_forall in Hall. specialize (Hall b Hin).
  apply andb_true_iff in Hall. destruct Hall as [Hall Hconn].
  apply andb_true_iff in Hall. destruct Hall as [Hlvl Hcol].
  repeat split; [exact Hlvl | lia | exact Hconn].
Qed.

Lemma nextChoicesOf_edge (a b : string) :
  In b (nextChoicesOf a) -> isLevel a = true /\ isLevel b = true.
Proof.
  intros Hin. destruct (nextChoicesOf_checked a b Hin) as (Ha & Hb & _).
  now split.
Qed.

Lemma nextChoicesOf_column (a b : string) :
  In b (nextChoicesOf a) -> columnOf b = columnOf a + 20.
Proof.
  intros Hin. now destruct (nextChoicesOf_checked a b Hin) as (_ & _ & Hc & _).
Qed.

Lemma nextChoicesOf_NoDup (a : string) : NoDup (nextChoicesOf a).
Proof.
  unfold nextChoicesOf. destruct (levelData a) as [d| |] eqn:Ha;
    try constructor.
  pose proof nextChoices_checked as Hall. rewrite forallb_forall in Hall.
  specialize (Hall (a, d) (levelData_Own_In a d Ha)). cbn [fst snd] in Hall.
  apply andb_true_iff in Hall. destruct Hall as [Hshape _].
  destruct (nextChoices d) as [|x [|y [|z rest]]]; try discriminate.
  - constructor.
  - repeat constructor. intros [].
  - apply negb_true_iff in Hshape. apply String.eqb_neq in Hshape.
    repeat constructor; simpl; intuition congruence.
Qed.

Lemma connections_checked :
  forallb (fun c => includes (nextChoicesOf (from c)) (to c))
          CAMPAIGN_DATA.connections = true.
Proof. vm_compute. reflexivity. Qed.

Lemma isConnection_In (a b : string) :
  isConnection a b = true <-> In (mkConnection a b) CAMPAIGN_DATA.connections.
Proof.
  unfold isConnection. rewrite existsb_exists. split.
  - intros [[f t] [Hin Heq]]. cbn [from to] in Heq.
    apply andb_true_iff in Heq. destruct Heq as [Hf Ht].
    apply String.eqb_eq in Hf. apply String.eqb_eq in Ht. now subst.
  - intros Hin. exists (mkConnection a b). split; [exact Hin|].
    cbn [from to]. now rewrite !String.eqb_refl.
Qed.

Lemma final_checked :
  forallb (fun entry =>
             Bool.eqb (isFinal (snd entry))
                      (match nextChoices (snd entry) with
                       | [] => true
                       | _ :: _ => false
                       end)
             && String.eqb (levelId (snd entry)) (fst entry)
             && match ownProperty mapPositions (fst entry) with
                | Some _ => true
                | None => false
                end)
          CAMPAIGN_DATA.levels = true.
Proof. vm_compute. reflexivity. Qed.

Lemma levelData_checked (key : string) (d : Level) :
  levelData key = Own d ->
  levelId d = key
  /\ (nextChoices d = [] <-> isFinal d = true)
  /\ exists pos, ownProperty mapPositions key = Some pos.
Proof.
  intros Hd.
  pose proof final_checked as Hall. rewrite forallb_forall in Hall.
  specialize (Hall (key, d) (levelData_Own_In key d Hd)). cbn [fst snd] in Hall.
  apply andb_true_iff in Hall. destruct Hall as [Hall Hpos].
  apply andb_true_iff in Hall. destruct Hall as [Hfin Hid].
  apply String.eqb_eq in Hid. split; [exact Hid|]. split.
  - apply Bool.eqb_prop in Hfin. rewrite Hfin.
    destruct (nextChoices d); split; congruence.
  - destruct (ownProperty mapPositions key) as [pos|]; [|discriminate].
    now exists pos.
Qed.

Lemma mapPositions_checked :
  forallb (fun node => isLevel (fst node)) mapPositions = true.
Proof. vm_compute. reflexivity. Qed.

Lemma reachable_checked :
  forallb (fun entry =>
             existsb (fun path => validPath (path ++ [fst entry]))
                     [ []; ["1"]; ["1"; "2a"]; ["1"; "2a"; "3"];
                       ["1"; "2a"; "3"; "4a"] ])
          CAMPAIGN_DATA.levels = true.
Proof. vm_compute. reflexivity. Qed.

(** Along next choices the column on the map grows by 20 at every level. *)
Lemma chainFrom_props (a : string) (path : list string) :
  chainFrom a path = true ->
  Forall (fun x => columnOf a < columnOf x) path
  /\ NoDup path
  /\ (forall x, In x (a :: path) ->
        columnOf x <= columnOf (last (a :: path) ""))
  /\ columnOf (last (a :: path) "")
     = columnOf a + 20 * Z.of_nat (List.length path).
Proof.
  revert a. induction path as [|b rest IH]; intros a Hc.
  - repeat split; try constructor.
    + intros x [<-|[]]. simpl. lia.
    + simpl. lia.
  - cbn [chainFrom] in Hc. apply andb_true_iff in Hc. destruct Hc as [Hab Hrest].
    apply includes_In in Hab.
    pose proof (nextChoicesOf_column a b Hab) as Hcol.
    destruct (IH b Hrest) as (Hall & Hnd & Hmax & Hcols).
    assert (Hlast : last (a :: b :: rest) "" = last (b :: rest) "")
      by reflexivity.
    repeat split.
    + constructor; [lia|].
      eapply Forall_impl; [|exact Hall]. intros x Hx. simpl in Hx. lia.
    + constructor; [|exact Hnd].
      intros Hin. rewrite Forall_forall in Hall. specialize (Hall b Hin). lia.
    + rewrite Hlast. intros x [<-|Hin].
      * specialize (Hmax b (or_introl eq_refl)). lia.
      * now apply Hmax.
    + rewrite Hlast, Hcols, Hcol. cbn [List.length]. lia.
Qed.

(** X1.  The campaign data hold together.  The connections drawn on the
    map are exactly the pairs of a level and one of its next choices, none
    of them twice, and the map has a node for exactly the levels of the
    table.  Every next choice is a level of the table whose node lies one
    column (20 percent) to the right, so no path along next choices comes
    back to the level it left.  The final level, and no other, is without
    next choices; every level carries its own key as id and is reached
    from the entry level ["1"]. *)
Theorem campaign_graph_integrity :
  (forall a b, In (mkConnection a b) CAMPAIGN_DATA.connections <->
               In b (nextChoicesOf a))
  /\ NoDup CAMPAIGN_DATA.connections
  /\ (forall key, isLevel key = true <->
                  exists pos, ownProperty mapPositions key = Some pos)
  /\ (forall a b, In b (nextChoicesOf a) ->
        isLevel a = true /\ isLevel b = true
        /\ columnOf b = columnOf a + 20)
  /\ (forall a path, path <> [] -> chainFrom a path = true ->
        last path "" <> a)
  /\ (forall key d, levelData key = Own d ->
        levelId d = key /\ (nextChoices d = [] <-> isFinal d = true))
  /\ (forall key, isLevel key = true ->
        exists path, validPath (path ++ [key]) = true).
Proof.
  split; [|split; [|split; [|split; [|split; [|split]]]]].
  - intros a b. rewrite <- isConnection_In. split.
    + intros Hc. apply isConnection_In in Hc.
      pose proof connections_checked as Hall. rewrite forallb_forall in Hall.
      specialize (Hall _ Hc). cbn [from to] in Hall. now apply includes_In.
    + intros Hin. now destruct (nextChoicesOf_checked a b Hin) as (_ & _ & _ & H).
  - unfold CAMPAIGN_DATA.connections.
    repeat constructor; simpl; intuition discriminate.
  - intros key. split.
    + intros Hkey. apply isLevel_Own in Hkey. destruct Hkey as [d Hd].
      now destruct (levelData_checked key d Hd) as (_ & _ & Hpos).
    + intros [pos Hpos]. apply ownProperty_In in Hpos.
      pose proof mapPositions_checked as Hall. rewrite forallb_forall in Hall.
      exact (Hall _ Hpos).
  - intros a b Hin.
    destruct (nextChoicesOf_checked a b Hin) as (Ha & Hb & Hcol & _).
    repeat split; assumption.
  - intros a path Hne Hc Hback.
    destruct (chainFrom_props a path Hc) as (_ & _ & _ & Hcols).
    destruct path as [|b rest]; [congruence|].
    change (last (a :: b :: rest) "") with (last (b :: rest) "") in Hcols.
    rewrite Hback in Hcols. cbn [List.length] in Hcols. lia.
  - intros key d Hd.
    destruct (levelData_checked key d Hd) as (Hid & Hfin & _). now split.
  - intros key Hkey. apply isLevel_Own in Hkey. destruct Hkey as [d Hd].
    pose proof reachable_checked as Hall. rewrite forallb_forall in Hall.
    specialize (Hall (key, d) (levelData_Own_In key d Hd)). cbn [fst] in Hall.
    apply existsb_exists in Hall. destruct Hall as [path [_ Hpath]].
    now exists path.
Qed.

Lemma campaign_graph_integrity_witness :
  In "3" (nextChoicesOf "2b")
  /\ In (mkConnection "2b" "3") CAMPAIGN_DATA.connections
  /\ columnOf "3" = columnOf "2b" + 20
  /\ ["2a"; "3"; "4b"] <> []
  /\ chainFrom "1" ["2a"; "3"; "4b"] = true
  /\ last ["2a"; "3"; "4b"] "" <> "1"
  /\ isLevel "4b" = true
  /\ exists path, validPath (path ++ ["4b"]) = true.
Proof.
  destruct campaign_graph_integrity
    as (Hconn & _ & _ & Hedge & Hback & _ & Hreach).
  assert (Hin : In "3" (nextChoicesOf "2b")) by (vm_compute; tauto).
  assert (Hne : ["2a"; "3"; "4b"] <> []) by discriminate.
  assert (Hc : chainFrom "1" ["2a"; "3"; "4b"] = true)
    by (vm_compute; reflexivity).
  assert (Hlvl : isLevel "4b" = true) by (vm_compute; reflexivity).
  split; [exact Hin|]. split; [apply (Hconn "2b" "3"); exact Hin|].
  split; [apply (Hedge "2b" "3" Hin)|]. split; [exact Hne|].
  split; [exact Hc|]. split; [exact (Hback "1" _ Hne Hc)|].
  split; [exact Hlvl|]. exact (Hreach "4b" Hlvl).
Defined.

(** ** Available choices and paths of the campaign *)

Lemma getAvailableChoices_sound (completedLevels choices : list string) :
  getAvailableChoices completedLevels = Returned choices ->
  Forall (fun id => isLevel id = true) choices
  /\ Forall (fun id => ~ In id completedLevels) choices
  /\ Forall (fun id => nextStep completedLevels id = true) choices
  /\ NoDup choices
  /\ (List.length choices <= 2)%nat.
Proof.
  unfold getAvailableChoices.
  destruct completedLevels as [|x xs].
  - intros [= <-]. repeat split.
    + repeat constructor.
    + repeat constructor. intros [].
    + repeat constructor.
    + repeat constructor. intros [].
    + simpl. lia.
  - set (path := x :: xs).
    destruct (levelData (last path "")) as [d| |] eqn:Hlast; try discriminate.
    + intros [= <-].
      assert (Hnext : nextChoicesOf (last path "") = nextChoices d)
        by (unfold nextChoicesOf; now rewrite Hlast).
      repeat split.
      * apply Forall_forall. intros id Hid. apply filter_In in Hid.
        destruct Hid as [Hid _]. rewrite <- Hnext in Hid.
        now apply nextChoicesOf_edge in Hid.
      * apply Forall_forall. intros id Hid. apply filter_In in Hid.
        destruct Hid as [_ Hneg]. apply negb_true_iff in Hneg.
        now apply includes_not_In.
      * apply Forall_forall. intros id Hid. apply filter_In in Hid.
        destruct Hid as [Hid _]. unfold nextStep, path.
        apply includes_In. fold path. now rewrite Hnext.
      * apply NoDup_filter. rewrite <- Hnext. apply nextChoicesOf_NoDup.
      * pose proof (filter_length_le
                      (fun levelId => negb (includes path levelId))
                      (nextChoices d)) as Hle.
        pose proof nextChoices_checked as Hall. rewrite forallb_forall in Hall.
        specialize (Hall (last path "", d)
                      (levelData_Own_In _ d Hlast)). cbn [fst snd] in Hall.
        apply andb_true_iff in Hall. destruct Hall as [Hshape _].
        destruct (nextChoices d) as [|a [|b [|c rest]]]; try discriminate;
          simpl in Hle |- *; lia.
    + intros [= <-]. repeat split; try constructor. simpl. lia.
Qed.

(** X2.  Whatever the completed levels are, every choice
    [getAvailableChoices] returns is a level of the table that is not
    completed and that continues the path (the entry level on the empty
    path, a next choice of the last completed level otherwise); no choice
    is offered twice, and there are at most two. *)
Theorem available_choices_sound (completedLevels choices : list string) :
  getAvailableChoices completedLevels = Returned choices ->
  Forall (fun id => isLevel id = true) choices
  /\ Forall (fun id => ~ In id completedLevels) choices
  /\ Forall (fun id => nextStep completedLevels id = true) choices
  /\ NoDup choices
  /\ (List.length choices <= 2)%nat.
Proof. apply getAvailableChoices_sound. Qed.

Lemma available_choices_sound_witness :
  getAvailableChoices ["1"; "2b"; "3"; "4a"; "3"] = Returned ["4b"]
  /\ Forall (fun id => ~ In id ["1"; "2b"; "3"; "4a"; "3"]) ["4b"]
  /\ NoDup ["4b"].
Proof.
  assert (H : getAvailableChoices ["1"; "2b"; "3"; "4a"; "3"] = Returned ["4b"])
    by (vm_compute; reflexivity).
  split; [exact H|].
  split; apply (available_choices_sound _ _ H).
Defined.

Lemma validPath_snoc (path : list string) (level : string) :
  validPath path = true -> nextStep path level = true ->
  validPath (path ++ [level]) = true.
Proof.
  destruct path as [|a rest]; cbn [validPath nextStep app].
  - intros _ H. rewrite H. reflexivity.
  - intros Hv Hn. apply andb_true_iff in Hv. destruct Hv as [Ha Hc].
    rewrite Ha. cbn [andb]. clear Ha.
    revert a Hc Hn. induction rest as [|b rest' IH]; intros a Hc Hn.
    + cbn in Hn |- *. rewrite Hn. reflexivity.
    + cbn [chainFrom app] in Hc |- *.
      apply andb_true_iff in Hc. destruct Hc as [Hab Hrest].
      rewrite Hab. cbn [andb]. apply IH; [exact Hrest|].
      exact Hn.
Qed.

Lemma last_In {A : Type} (l : list A) (d : A) : l <> [] -> In (last l d) l.
Proof.
  intros Hne. destruct (exists_last Hne) as [init [x Heq]]. rewrite Heq.
  rewrite last_last. apply in_or_app. right. now left.
Qed.

Lemma chainFrom_levels (a : string) (path : list string) :
  chainFrom a path = true -> forall y, In y path -> isLevel y = true.
Proof.
  revert a. induction path as [|c rest IH]; intros a Hc y Hy; [contradiction|].
  cbn [chainFrom] in Hc. apply andb_true_iff in Hc. destruct Hc as [Hac Hrest].
  destruct Hy as [<-|Hy].
  - apply includes_In in Hac. now apply nextChoicesOf_edge in Hac.
  - now apply (IH c).
Qed.

Lemma column_checked :
  forallb (fun entry =>
             (columnOf (fst entry) <=? 90)
             && Bool.eqb (String.eqb (fst entry) "5")
                         (columnOf (fst entry) =? 90))
          CAMPAIGN_DATA.levels = true.
Proof. vm_compute. reflexivity. Qed.

Lemma level_column (key : string) :
  isLevel key = true ->
  columnOf key <= 90 /\ (key = "5" <-> columnOf key = 90).
Proof.
  intros Hkey. apply isLevel_Own in Hkey. destruct Hkey as [d Hd].
  pose proof column_checked as Hall. rewrite forallb_forall in Hall.
  specialize (Hall (key, d) (levelData_Own_In key d Hd)). cbn [fst] in Hall.
  apply andb_true_iff in Hall. destruct Hall as [Hle Heq].
  apply Bool.eqb_prop in Heq. split; [lia|].
  rewrite <- String.eqb_eq, Heq. apply Z.eqb_eq.
Qed.

Lemma validPath_NoDup (path : list string) :
  validPath path = true -> NoDup path.
Proof.
  destruct path as [|a rest]; [constructor|]. cbn [validPath]. intros Hv.
  apply andb_true_iff in Hv. destruct Hv as [_ Hc].
  destruct (chainFrom_props a rest Hc) as (Hall & Hnd & _).
  constructor; [|exact Hnd].
  intros Hin. rewrite Forall_forall in Hall. specialize (Hall a Hin). lia.
Qed.

(** X3.  On a path of the campaign (from the entry level along next
    choices) no level occurs twice and the path is no longer than five
    levels: its last level sits in the column of the map numbered by its
    length.  The filter of [getAvailableChoices] then removes nothing: the
    choices are all the next choices of the last level, and there is none
    exactly when that level is the final one, so the map is never a dead
    end before the end of the campaign. *)
Theorem valid_path_choices (path : list string) :
  validPath path = true -> path <> [] ->
  NoDup path
  /\ columnOf (last path "") = 20 * Z.of_nat (List.length path) - 10
  /\ (List.length path <= 5)%nat
  /\ getAvailableChoices path = Returned (nextChoicesOf (last path ""))
  /\ (getAvailableChoices path = Returned [] <->
      levelIsFinal (last path "") = true)
  /\ (levelIsFinal (last path "") = true <-> List.length path = 5%nat).
Proof.
  destruct path as [|a rest]; [congruence|]. intros Hv _.
  cbn [validPath] in Hv. apply andb_true_iff in Hv. destruct Hv as [Ha Hc].
  apply String.eqb_eq in Ha. subst a.
  destruct (chainFrom_props "1" rest Hc) as (Hall & Hnd & Hmax & Hcols).
  set (path := "1" :: rest) in *.
  assert (Hcol : columnOf (last path "") = 20 * Z.of_nat (List.length path) - 10).
  { rewrite Hcols. unfold path. cbn [List.length].
    change (columnOf "1") with 10. lia. }
  assert (Hlvl : isLevel (last path "") = true).
  { destruct rest as [|b rest'] eqn:Hrest; [reflexivity|].
    assert (Hin : In (last path "") (b :: rest')).
    { unfold path.
      change (last ("1" :: b :: rest') "") with (last (b :: rest') "").
      apply last_In. discriminate. }
    exact (chainFrom_levels "1" (b :: rest') Hc _ Hin). }
  assert (Hchoices : getAvailableChoices path
                     = Returned (nextChoicesOf (last path ""))).
  { unfold getAvailableChoices, path. fold path.
    apply isLevel_Own in Hlvl. destruct Hlvl as [d Hd].
    unfold nextChoicesOf. rewrite Hd. f_equal.
    apply forallb_filter_id. apply forallb_forall. intros b Hb.
    apply negb_true_iff. apply includes_not_In. intros Hin.
    assert (Hedge : In b (nextChoicesOf (last path "")))
      by (unfold nextChoicesOf; now rewrite Hd).
    apply nextChoicesOf_column in Hedge.
    specialize (Hmax b Hin). fold path in Hmax. lia. }
  assert (Hfinal : levelIsFinal (last path "") = true <->
                   nextChoicesOf (last path "") = []).
  { apply isLevel_Own in Hlvl. destruct Hlvl as [d Hd].
    unfold levelIsFinal, nextChoicesOf. rewrite Hd.
    destruct (levelData_checked _ d Hd) as (_ & Hiff & _).
    symmetry. exact Hiff. }
  destruct (level_column _ Hlvl) as [Hle H90].
  assert (Hfive : levelIsFinal (last path "") = true <->
                  List.length path = 5%nat).
  { rewrite levelIsFinal_iff, H90. lia. }
  split; [constructor; [|exact Hnd]|].
  { intros Hin. rewrite Forall_forall in Hall. specialize (Hall "1" Hin). lia. }
  split; [exact Hcol|]. split.
  { lia. }
  split; [exact Hchoices|]. split; [|exact Hfive].
  rewrite Hchoices, Hfinal. split; [intros [= H]; exact H | intros ->; reflexivity].
Qed.

Lemma valid_path_choices_witness :
  validPath ["1"; "2b"; "3"] = true
  /\ ["1"; "2b"; "3"] <> []
  /\ getAvailableChoices ["1"; "2b"; "3"]
     = Returned (nextChoicesOf (last ["1"; "2b"; "3"] "")).
Proof.
  assert (Hv : validPath ["1"; "2b"; "3"] = true) by (vm_compute; reflexivity).
  assert (Hne : ["1"; "2b"; "3"] <> []) by discriminate.
  split; [exact Hv|]. split; [exact Hne|].
  apply (valid_path_choices ["1"; "2b"; "3"] Hv Hne).
Defined.

(** ** Writes and the run state *)

(** A write never touches the run state: either the store and the copy of
    the saved record both become the record written, or nothing changes. *)
Lemma saveProgress_frame (render : MenuState) (io : IO) (updates : Progress)
  (w : World) :
  let w' := saveProgress render io updates w in
  screen (ui w') = screen (ui w)
  /\ options (ui w') = options (ui w)
  /\ selectedWingmen (ui w') = selectedWingmen (ui w)
  /\ currentLevel (ui w') = currentLevel (ui w)
  /\ completedLevels (ui w') = completedLevels (ui w)
  /\ totalScore (ui w') = totalScore (ui w)
  /\ lastResults (ui w') = lastResults (ui w)
  /\ ((io = resolved
       /\ gameProgress (ui w') = Some (spread (snapshot render) updates)
       /\ db w' = Some (spread (snapshot render) updates))
      \/ (io = rejected
          /\ gameProgress (ui w') = gameProgress (ui w) /\ db w' = db w)).
Proof.
  unfold saveProgress. destruct io; cbn.
  - repeat split. left. repeat split.
  - repeat split. right. repeat split.
Qed.

(** ** Levels named by the state are levels of the table *)

Lemma isLevel_orString (level : string) :
  isLevel level = true -> isLevel (orString (Some level) "1") = true.
Proof.
  intros H. destruct level; [reflexivity | exact H].
Qed.

Lemma LevelsOk_intro (w : World) :
  isLevel (currentLevel (ui w)) = true ->
  Forall (fun id => isLevel id = true) (completedLevels (ui w)) ->
  RecordLevelsOk (gameProgress (ui w)) ->
  RecordLevelsOk (db w) ->
  LevelsOk w.
Proof. intros H1 H2 H3 H4. exact (conj H1 (conj H2 (conj H3 H4))). Qed.

Lemma saveProgress_levels (render : MenuState) (io : IO) (updates : Progress)
  (w : World) (v : Screen) :
  RecordLevelsOk (Some (spread (snapshot render) updates)) ->
  LevelsOk w ->
  LevelsOk (onUi (setScreen v) (saveProgress render io updates w)).
Proof.
  intros Hu (Hc & Hp & Hg & Hd).
  destruct (saveProgress_frame render io updates w)
    as (_ & _ & _ & Hcur & Hpath & _ & _ & Hrec).
  apply LevelsOk_intro; cbn.
  - rewrite Hcur. exact Hc.
  - rewrite Hpath. exact Hp.
  - destruct Hrec as [(_ & -> & _)|(_ & -> & _)]; assumption.
  - destruct Hrec as [(_ & _ & ->)|(_ & _ & ->)]; assumption.
Qed.

Lemma saveProgress_levels_same (render : MenuState) (io : IO)
  (updates : Progress) (w : World) :
  RecordLevelsOk (Some (spread (snapshot render) updates)) ->
  LevelsOk w ->
  LevelsOk (saveProgress render io updates w).
Proof.
  intros Hu (Hc & Hp & Hg & Hd).
  destruct (saveProgress_frame render io updates w)
    as (_ & _ & _ & Hcur & Hpath & _ & _ & Hrec).
  apply LevelsOk_intro.
  - rewrite Hcur. exact Hc.
  - rewrite Hpath. exact Hp.
  - destruct Hrec as [(_ & -> & _)|(_ & -> & _)]; assumption.
  - destruct Hrec as [(_ & _ & ->)|(_ & _ & ->)]; assumption.
Qed.

Lemma clickable_isLevel (s : MenuState) (levelId : string) :
  clickable s levelId = true -> isLevel levelId = true.
Proof.
  unfold clickable.
  destruct (getAvailableChoices (completedLevels s)) as [choices|] eqn:Hc;
    [|discriminate].
  intros Hin. apply includes_In in Hin.
  destruct (getAvailableChoices_sound _ _ Hc) as (Hlvl & _).
  rewrite Forall_forall in Hlvl. now apply Hlvl.
Qed.

Lemma step_levels (e : Event) (w : World) : LevelsOk w -> LevelsOk (step e w).
Proof.
  intros Hw. pose proof Hw as (Hc & Hp & Hg & Hd).
  apply step_cases; try (intros; exact Hw).
  - (* mount *)
    intros io _. unfold loadProgress. destruct io; cbn [loadGameProgress];
      [|exact Hw].
    destruct (db w) as [saved|] eqn:Hdb.
    + destruct (savedOptions saved);
        (apply LevelsOk_intro; cbn; [exact Hc | exact Hp | exact Hd | exact Hd]).
    + apply LevelsOk_intro; cbn; [exact Hc | exact Hp | exact Hg | exact I].
  - (* new game *)
    intros _. apply LevelsOk_intro; cbn;
      [reflexivity | constructor | exact Hg | exact Hd].
  - (* continue *)
    intros _ _. unfold handleContinue.
    destruct (gameProgress (ui w)) as [gp|] eqn:Hgp; [|exact Hw].
    destruct Hg as [Hgc Hgp'].
    unfold onUi.
    destruct (nonEmpty (savedCompletedLevels gp));
      [|destruct (nonEmpty (savedSelectedWingmen gp))];
      (apply LevelsOk_intro; cbn;
       [exact Hgc | exact Hgp' | rewrite Hgp; split; assumption | exact Hd]).
  - (* options changed *)
    intros io o _. unfold handleUpdateOptions.
    apply saveProgress_levels_same; [|exact Hw].
    split; cbn; [now apply isLevel_orString | exact Hp].
  - (* confirm team *)
    intros io _ _. unfold handleWingmenConfirm.
    apply saveProgress_levels; [|exact Hw].
    split; cbn; [now apply isLevel_orString | exact Hp].
  - (* back from the briefing *)
    intros _. unfold handleMissionBack.
    destruct (completedLevels (ui w)); exact Hw.
  - (* results acknowledged *)
    intros io _. unfold handleResultsContinue.
    destruct (negb (resultsCompleted (lastResults (ui w)))); [exact Hw|].
    assert (Hnew : Forall (fun id => isLevel id = true)
                          (completedLevels (ui w) ++ [currentLevel (ui w)])).
    { apply Forall_app. split; [exact Hp | now constructor]. }
    destruct (levelIsFinal (currentLevel (ui w)));
      (apply saveProgress_levels;
       [ split; cbn; [first [reflexivity | now apply isLevel_orString] | exact Hnew]
       | apply LevelsOk_intro; cbn; assumption ]).
  - (* a level of the map *)
    intros io levelId _ Hclick. unfold handleLevelSelect.
    apply clickable_isLevel in Hclick.
    apply saveProgress_levels.
    + split; cbn; [now apply isLevel_orString | exact Hp].
    + apply LevelsOk_intro; cbn; assumption.
  - (* New Game+ *)
    intros io _. unfold handleNewGamePlus. destruct io; cbn [clearGameProgress];
      [|exact Hw].
    apply LevelsOk_intro; cbn; [reflexivity | constructor | exact Hg | exact I].
Qed.

Lemma run_levels (events : list Event) (w : World) :
  LevelsOk w -> LevelsOk (run events w).
Proof.
  revert w. induction events as [|e rest IH]; intros w Hw; [exact Hw|].
  simpl. apply IH. now apply step_levels.
Qed.

Lemma isLevel_reads (key : string) :
  isLevel key = true -> readsOffUndefined key = false.
Proof.
  unfold isLevel, readsOffUndefined. destruct (levelData key); congruence.
Qed.

(** X4.  Over a store whose record (if any) names levels of the table, no
    sequence of events brings the component to a screen whose rendering
    throws: the current level and every completed level stay levels of the
    table, and so does every choice shown on the map.  The condition on the
    store matters: Continue on a record with a squad, no completed levels
    and a current level that is in no table makes the briefing throw. *)
Theorem screens_never_throw :
  (forall (db0 : Store) (events : list Event),
      RecordLevelsOk db0 ->
      let s := ui (run events (boot db0)) in
      renderThrows s = false
      /\ isLevel (currentLevel s) = true
      /\ Forall (fun id => isLevel id = true) (completedLevels s))
  /\ (forall (saved : Progress),
         nonEmpty (savedSelectedWingmen saved) = true ->
         nonEmpty (savedCompletedLevels saved) = false ->
         readsOffUndefined (orString (savedCurrentLevel saved) "1") = true ->
         renderThrows
           (ui (run [Mount resolved; ClickContinue] (boot (Some saved))))
         = true).
Proof.
  split.
  - intros db0 events Hdb s.
    assert (Hok : LevelsOk (run events (boot db0))).
    { apply run_levels. apply LevelsOk_intro; cbn;
        [reflexivity | constructor | exact I | exact Hdb]. }
    destruct Hok as (Hc & Hp & _). fold s in Hc, Hp.
    split; [|split; assumption].
    unfold renderThrows. destruct (screen s); try reflexivity.
    + now apply isLevel_reads.
    + now apply isLevel_reads.
    + destruct (getAvailableChoices (completedLevels s)) as [choices|] eqn:Hch.
      * destruct (getAvailableChoices_sound _ _ Hch) as (Hlvl & _).
        rewrite Forall_forall in Hlvl.
        destruct (existsb readsOffUndefined choices) eqn:Hex; [|reflexivity].
        apply existsb_exists in Hex. destruct Hex as [id [Hin Hread]].
        rewrite (isLevel_reads id (Hlvl id Hin)) in Hread. discriminate.
      * exfalso. unfold getAvailableChoices in Hch.
        destruct (completedLevels s) as [|x xs] eqn:Hpath; [discriminate|].
        assert (Hlast : isLevel (last (x :: xs) "") = true).
        { rewrite Forall_forall in Hp. apply Hp. apply last_In. discriminate. }
        unfold isLevel in Hlast.
        destruct (levelData (last (x :: xs) "")); discriminate.
  - intros saved Hsquad Hpath Hread.
    destruct saved as [o cl path squad sc runs]. cbn in Hsquad, Hpath, Hread.
    destruct squad as [[|m squad']|]; try discriminate.
    destruct path as [[|l path']|]; try discriminate;
      destruct o; cbn; exact Hread.
Qed.

Lemma screens_never_throw_witness :
  RecordLevelsOk (Some midRunRecord)
  /\ renderThrows
       (ui (run [Mount resolved; ClickContinue; ClickLevel "2a" resolved]
              (boot (Some midRunRecord)))) = false.
Proof.
  destruct screens_never_throw as [Hsafe _].
  assert (Hrec : RecordLevelsOk (Some midRunRecord)).
  { split; [vm_compute; reflexivity|]. repeat constructor. }
  split; [exact Hrec|].
  apply (Hsafe (Some midRunRecord)
           [Mount resolved; ClickContinue; ClickLevel "2a" resolved] Hrec).
Defined.

(** ** The completed levels are a path of the campaign *)

Lemma runInPlay_inv (P : World -> Prop) :
  (forall e w, P w -> P (stepInPlay e w)) ->
  forall events w, P w -> P (runInPlay events w).
Proof.
  intros Hstep events. induction events as [|e rest IH]; intros w Hw;
    [exact Hw|].
  simpl. apply IH. now apply Hstep.
Qed.

Lemma stepInPlay_step (e : Event) (w : World) :
  stepInPlay e w = step e w \/ stepInPlay e w = w.
Proof.
  unfold stepInPlay. destruct e; try (now left).
  destruct (screen (ui w)); (now left) || (now right).
Qed.

Lemma nonEmpty_false {A : Type} (a : option (list A)) :
  nonEmpty a = false -> orEmpty a = [].
Proof.
  destruct a as [[|x xs]|]; try reflexivity. discriminate.
Qed.

Lemma ChainOk_intro (w : World) :
  validPath (completedLevels (ui w)) = true ->
  (completedLevels (ui w) = [] -> currentLevel (ui w) = "1") ->
  RecordChainOk (gameProgress (ui w)) ->
  RecordChainOk (db w) ->
  ScreenChainOk (ui w) ->
  ChainOk w.
Proof.
  intros H1 H2 H3 H4 H5. exact (conj H1 (conj H2 (conj H3 (conj H4 H5)))).
Qed.

Lemma snapshot_chain (s : MenuState) (updates : Progress) :
  savedCurrentLevel updates = None ->
  savedCompletedLevels updates = None ->
  validPath (completedLevels s) = true ->
  (completedLevels s = [] -> currentLevel s = "1") ->
  RecordChainOk (Some (spread (snapshot s) updates)).
Proof.
  intros Hcur Hpath Hv He. cbn. rewrite Hcur, Hpath. cbn.
  split; [exact Hv|]. intros Hnil. rewrite (He Hnil). reflexivity.
Qed.

Lemma saveProgress_chain (render : MenuState) (io : IO) (updates : Progress)
  (w : World) (v : Screen) :
  RecordChainOk (Some (spread (snapshot render) updates)) ->
  validPath (completedLevels (ui w)) = true ->
  (completedLevels (ui w) = [] -> currentLevel (ui w) = "1") ->
  RecordChainOk (gameProgress (ui w)) ->
  RecordChainOk (db w) ->
  ScreenChainOk (setScreen v (ui w)) ->
  ChainOk (onUi (setScreen v) (saveProgress render io updates w)).
Proof.
  intros Hu Hv He Hg Hd Hscr. unfold saveProgress.
  destruct io; cbn [saveGameProgress].
  - apply ChainOk_intro; [exact Hv | exact He | exact Hu | exact Hu | exact Hscr].
  - apply ChainOk_intro; assumption.
Qed.

Lemma clickable_nextStep (s : MenuState) (levelId : string) :
  clickable s levelId = true -> nextStep (completedLevels s) levelId = true.
Proof.
  unfold clickable.
  destruct (getAvailableChoices (completedLevels s)) as [choices|] eqn:Hc;
    [|discriminate].
  intros Hin. apply includes_In in Hin.
  destruct (getAvailableChoices_sound _ _ Hc) as (_ & _ & Hnext & _).
  rewrite Forall_forall in Hnext. now apply Hnext.
Qed.

Ltac chain_screen Hs := unfold ScreenChainOk; cbn; rewrite ?Hs; cbn.

Lemma stepInPlay_chain (e : Event) (w : World) :
  ChainOk w -> ChainOk (stepInPlay e w).
Proof.
  intros Hw. pose proof Hw as (Hv & He & Hg & Hd & Hscr).
  unfold ScreenChainOk in Hscr.
  apply stepInPlay_cases; try exact Hw.
  - (* mount *)
    intros io Hs. unfold loadProgress. destruct io; cbn [loadGameProgress].
    + destruct (db w) as [saved|] eqn:Hdb.
      * destruct (savedOptions saved);
          (apply ChainOk_intro; cbn;
           [exact Hv | exact He | exact Hd | exact Hd | exact I]).
      * apply ChainOk_intro; cbn;
          [exact Hv | exact He | exact Hg | exact I | exact I].
    + apply ChainOk_intro; cbn; [exact Hv | exact He | exact Hg | exact Hd | exact I].
  - (* new game *)
    intros _. apply ChainOk_intro; cbn;
      [reflexivity | reflexivity | exact Hg | exact Hd | reflexivity].
  - (* continue *)
    intros _ _. unfold handleContinue.
    destruct (gameProgress (ui w)) as [gp|] eqn:Hgp; [|exact Hw].
    destruct Hg as [Hgv Hge]. unfold onUi.
    destruct (nonEmpty (savedCompletedLevels gp)) eqn:Hne;
      [|destruct (nonEmpty (savedSelectedWingmen gp))];
      (apply ChainOk_intro; cbn;
       [ exact Hgv | exact Hge | rewrite Hgp; split; assumption | exact Hd | ]).
    + exact I.
    + apply nonEmpty_false in Hne. rewrite Hne. cbn.
      rewrite (Hge Hne). reflexivity.
    + now apply nonEmpty_false.
  - (* options *)
    intros _. apply ChainOk_intro; cbn;
      [exact Hv | exact He | exact Hg | exact Hd | exact I].
  - (* options changed *)
    intros io o Hs. unfold handleUpdateOptions, saveProgress.
    assert (Hu : RecordChainOk
                   (Some (spread (snapshot (ui w))
                            (mkProgress (Some o) None None None None None))))
      by (apply snapshot_chain; auto).
    destruct io; cbn [saveGameProgress].
    + apply ChainOk_intro; cbn; [exact Hv | exact He | exact Hu | exact Hu |].
      chain_screen Hs. exact I.
    + apply ChainOk_intro; cbn; [exact Hv | exact He | exact Hg | exact Hd |].
      chain_screen Hs. exact I.
  - (* back from the options *)
    intros _. apply ChainOk_intro; cbn;
      [exact Hv | exact He | exact Hg | exact Hd | exact I].
  - (* a wingman card *)
    intros wid Hs _. rewrite Hs in Hscr.
    apply ChainOk_intro; cbn; [exact Hv | exact He | exact Hg | exact Hd |].
    chain_screen Hs. exact Hscr.
  - (* confirm team *)
    intros io Hs _. rewrite Hs in Hscr. unfold handleWingmenConfirm.
    apply saveProgress_chain; try assumption.
    + apply snapshot_chain; auto.
    + chain_screen Hs. rewrite Hscr. cbn. rewrite (He Hscr). reflexivity.
  - (* launch *)
    intros Hs. rewrite Hs in Hscr.
    apply ChainOk_intro; cbn; [exact Hv | exact He | exact Hg | exact Hd |].
    chain_screen Hs. exact Hscr.
  - (* back from the briefing *)
    intros Hs. unfold handleMissionBack.
    destruct (completedLevels (ui w)) as [|l ls] eqn:Hpath;
      (apply ChainOk_intro; cbn;
       [ rewrite Hpath; exact Hv | rewrite Hpath; exact He
       | exact Hg | exact Hd | ]).
    + chain_screen Hs. exact Hpath.
    + exact I.
  - (* the outcome of the mission being played *)
    intros r Hs. rewrite Hs in Hscr.
    apply ChainOk_intro; cbn; [exact Hv | exact He | exact Hg | exact Hd |].
    chain_screen Hs. exact Hscr.
  - (* results acknowledged *)
    intros io Hs. rewrite Hs in Hscr. unfold handleResultsContinue.
    destruct (negb (resultsCompleted (lastResults (ui w)))).
    + apply ChainOk_intro; cbn; [exact Hv | exact He | exact Hg | exact Hd |].
      chain_screen Hs. exact Hscr.
    + assert (Hnew : validPath (completedLevels (ui w) ++ [currentLevel (ui w)])
                     = true) by (now apply validPath_snoc).
      assert (Hnn : completedLevels (ui w) ++ [currentLevel (ui w)] <> [])
        by (destruct (completedLevels (ui w)); discriminate).
      destruct (levelIsFinal (currentLevel (ui w)));
        (apply saveProgress_chain;
         [ split; cbn; [exact Hnew | intros Hnil; contradiction]
         | exact Hnew | intros Hnil; contradiction
         | exact Hg | exact Hd | exact I ]).
  - (* a level of the map *)
    intros io levelId Hs Hclick. unfold handleLevelSelect.
    apply clickable_nextStep in Hclick.
    assert (Hentry : completedLevels (ui w) = [] -> levelId = "1").
    { intros Hnil. rewrite Hnil in Hclick. cbn in Hclick.
      now apply String.eqb_eq in Hclick. }
    apply saveProgress_chain; try assumption.
    split; cbn; [exact Hv|]. intros Hnil. rewrite (Hentry Hnil). reflexivity.
  - (* New Game+ *)
    intros io _. unfold handleNewGamePlus. destruct io; cbn [clearGameProgress];
      [|exact Hw].
    apply ChainOk_intro; cbn;
      [reflexivity | reflexivity | exact Hg | exact I | reflexivity].
  - (* main menu *)
    intros _. apply ChainOk_intro; cbn;
      [exact Hv | exact He | exact Hg | exact Hd | exact I].
Qed.

(** Continue on a record with a squad and no completed level, and the
    launch of the mission: the current level of the record is played. *)
Lemma continue_to_launch (saved : Progress) :
  nonEmpty (savedSelectedWingmen saved) = true ->
  orEmpty (savedCompletedLevels saved) = [] ->
  let w := run [Mount resolved; ClickContinue; ClickStartMission]
               (boot (Some saved)) in
  screen (ui w) = playing
  /\ completedLevels (ui w) = []
  /\ currentLevel (ui w) = orString (savedCurrentLevel saved) "1".
Proof.
  intros Hsquad Hpath. destruct saved as [o cl path squad sc runs].
  cbn [savedSelectedWingmen savedCompletedLevels savedCurrentLevel]
    in Hsquad, Hpath |- *.
  destruct squad as [[|m squad']|]; try discriminate.
  destruct path as [[|l path']|]; try discriminate;
    destruct o; cbn -[orString]; repeat split.
Qed.

(** X5.  With one report per mission, over a store whose record (if any)
    holds completed levels that are a path of the campaign and, when it
    holds no completed level, the entry level ["1"] as current level (or
    none), the completed levels are always a path of the campaign: they
    start at the entry level and follow next choices.  On the briefing,
    while the mission is played and on its results screen, the current
    level continues that path and is not yet part of it; this is the level
    [handleStartMission] hands to the parent.  The second condition on the
    record matters: Continue on a record with a squad, no completed level
    and another current level leads, once that level is won, to completed
    levels that are no path of the campaign. *)
Theorem completed_levels_form_a_path :
  (forall (db0 : Store) (events : list Event),
      RecordChainOk db0 ->
      let s := ui (runInPlay events (boot db0)) in
      validPath (completedLevels s) = true
      /\ NoDup (completedLevels s)
      /\ (screen s = mission \/ screen s = playing \/ screen s = results ->
          nextStep (completedLevels s) (fst (startLevelCall s)) = true
          /\ ~ In (fst (startLevelCall s)) (completedLevels s)
          /\ validPath (completedLevels s ++ [currentLevel s]) = true))
  /\ (forall (saved : Progress) (outcome : Results) (io : IO),
         nonEmpty (savedSelectedWingmen saved) = true ->
         orEmpty (savedCompletedLevels saved) = [] ->
         orString (savedCurrentLevel saved) "1" <> "1" ->
         completed outcome = true ->
         let s := ui (runInPlay [Mount resolved; ClickContinue;
                                 ClickStartMission; LevelEnded outcome;
                                 ClickResultsContinue io]
                        (boot (Some saved))) in
         completedLevels s = [orString (savedCurrentLevel saved) "1"]
         /\ validPath (completedLevels s) = false).
Proof.
  split.
  - intros db0 events Hdb s.
    assert (Hok : ChainOk (runInPlay events (boot db0))).
    { apply runInPlay_inv; [exact stepInPlay_chain|].
      apply ChainOk_intro; cbn;
        [reflexivity | reflexivity | exact I | exact Hdb | exact I]. }
    destruct Hok as (Hv & He & _ & _ & Hscr). fold s in Hv, He, Hscr.
    pose proof validPath_NoDup as Hnd.
    split; [exact Hv|]. split; [now apply Hnd|].
    intros Hon. unfold ScreenChainOk in Hscr. cbn [startLevelCall fst].
    assert (Hnext : nextStep (completedLevels s) (currentLevel s) = true)
      by (destruct Hon as [Hs|[Hs|Hs]]; rewrite Hs in Hscr; exact Hscr).
    assert (Hnew : validPath (completedLevels s ++ [currentLevel s]) = true)
      by (now apply validPath_snoc).
    split; [exact Hnext|]. split; [|exact Hnew].
    apply Hnd in Hnew. apply NoDup_snoc in Hnew. tauto.
  - intros saved outcome io Hsquad Hpath Hlevel Hwin s.
    destruct (continue_to_launch saved Hsquad Hpath) as (Hscr & Hnone & Hcur).
    set (launched := run [Mount resolved; ClickContinue; ClickStartMission]
                         (boot (Some saved))) in *.
    assert (Hs : s = ui (reportOutcome io outcome launched)).
    { unfold s. cbn [runInPlay].
      change (stepInPlay ClickStartMission
                (stepInPlay ClickContinue
                   (stepInPlay (Mount resolved) (boot (Some saved)))))
        with launched.
      unfold stepInPlay at 2. rewrite Hscr.
      unfold stepInPlay, step. reflexivity. }
    assert (Hnew : completedLevels s = [orString (savedCurrentLevel saved) "1"]).
    { rewrite Hs, (reportOutcome_path io outcome launched Hwin), Hnone, Hcur.
      reflexivity. }
    split; [exact Hnew|]. rewrite Hnew. cbn [validPath chainFrom].
    rewrite andb_true_r. now apply String.eqb_neq.
Qed.

Lemma completed_levels_form_a_path_witness :
  RecordChainOk (Some midRunRecord)
  /\ validPath
       (completedLevels
          (ui (runInPlay [Mount resolved; ClickContinue; ClickLevel "2b" resolved;
                          ClickStartMission; LevelEnded (victory 700);
                          ClickResultsContinue resolved]
                 (boot (Some midRunRecord))))) = true
  /\ nonEmpty (savedSelectedWingmen strayRecord) = true
  /\ orEmpty (savedCompletedLevels strayRecord) = []
  /\ orString (savedCurrentLevel strayRecord) "1" <> "1"
  /\ validPath
       (completedLevels
          (ui (runInPlay [Mount resolved; ClickContinue; ClickStartMission;
                          LevelEnded (victory 700);
                          ClickResultsContinue resolved]
                 (boot (Some strayRecord))))) = false.
Proof.
  destruct completed_levels_form_a_path as [Hpath Hstray].
  assert (Hrec : RecordChainOk (Some midRunRecord)).
  { split; [vm_compute; reflexivity | discriminate]. }
  assert (Hsq : nonEmpty (savedSelectedWingmen strayRecord) = true)
    by reflexivity.
  assert (Hnil : orEmpty (savedCompletedLevels strayRecord) = [])
    by reflexivity.
  assert (Hlvl : orString (savedCurrentLevel strayRecord) "1" <> "1")
    by (vm_compute; discriminate).
  split; [exact Hrec|]. split.
  - apply (Hpath (Some midRunRecord) _ Hrec).
  - split; [exact Hsq|]. split; [exact Hnil|]. split; [exact Hlvl|].
    apply (Hstray strayRecord (victory 700) resolved Hsq Hnil Hlvl eq_refl).
Defined.

(** ** The squad a mission is launched with *)

Lemma SquadOk_intro (w : World) :
  RecordSquadOk (gameProgress (ui w)) ->
  RecordSquadOk (db w) ->
  ScreenSquadOk (ui w) ->
  SquadOk w.
Proof. intros H1 H2 H3. exact (conj H1 (conj H2 H3)). Qed.

Lemma saveProgress_squad (render : MenuState) (io : IO) (updates : Progress)
  (w : World) (v : Screen) :
  RecordSquadOk (Some (spread (snapshot render) updates)) ->
  RecordSquadOk (gameProgress (ui w)) ->
  RecordSquadOk (db w) ->
  ScreenSquadOk (setScreen v (ui w)) ->
  SquadOk (onUi (setScreen v) (saveProgress render io updates w)).
Proof.
  intros Hu Hg Hd Hscr. unfold saveProgress.
  destruct io; cbn [saveGameProgress].
  - apply SquadOk_intro; [exact Hu | exact Hu | exact Hscr].
  - apply SquadOk_intro; assumption.
Qed.

Ltac squad_screen Hs := unfold ScreenSquadOk; cbn; rewrite ?Hs; cbn.

(** Once the load has settled it stays settled. *)
Lemma step_loaded (e : Event) (w : World) :
  loadPending w = false -> loadPending (step e w) = false.
Proof.
  intros Hp.
  apply step_cases; try (intros; exact Hp).
  - intros io _. unfold loadProgress. destruct io; cbn [loadGameProgress];
      [destruct (db w)|]; reflexivity.
  - intros _ _. unfold handleContinue.
    destruct (gameProgress (ui w)); exact Hp.
  - intros io o _. unfold handleUpdateOptions, saveProgress.
    destruct io; exact Hp.
  - intros io _ _. unfold handleWingmenConfirm, saveProgress.
    destruct io; exact Hp.
  - intros _. unfold handleMissionBack. destruct (completedLevels (ui w)); exact Hp.
  - intros io _. unfold handleResultsContinue, saveProgress.
    destruct (negb (resultsCompleted (lastResults (ui w)))); [exact Hp|].
    destruct (levelIsFinal (currentLevel (ui w))); destruct io; exact Hp.
  - intros io levelId _ _. unfold handleLevelSelect, saveProgress.
    destruct io; exact Hp.
  - intros io _. unfold handleNewGamePlus. destruct io; exact Hp.
Qed.

(** With one report per mission nothing happens before the load settles. *)
Lemma stepInPlay_loading (e : Event) (w : World) :
  LoadingOk w -> LoadingOk (stepInPlay e w).
Proof.
  intros Hw. destruct (loadPending w) eqn:Hp.
  - destruct (Hw Hp) as (Hs & _).
    unfold stepInPlay, step. rewrite Hs, Hp.
    destruct e as [io| | | |o io| |wid|io| | |r|io|lid io|io|]; try exact Hw.
    intros Hpend. unfold loadProgress in Hpend.
    destruct io; cbn [loadGameProgress] in Hpend;
      [destruct (db w)|]; discriminate.
  - intros Hpend.
    destruct (stepInPlay_step e w) as [Heq|Heq]; rewrite Heq in Hpend.
    + rewrite (step_loaded e w Hp) in Hpend. discriminate.
    + congruence.
Qed.

Lemma stepInPlay_squad (e : Event) (w : World) :
  LoadingOk w -> SquadOk w -> SquadOk (stepInPlay e w).
Proof.
  intros Hl Hw. pose proof Hw as (Hg & Hd & Hscr).
  unfold ScreenSquadOk in Hscr.
  apply stepInPlay_cases; try exact Hw.
  - (* the load settles *)
    intros io Hp. destruct (Hl Hp) as (Hs & _). rewrite Hs in Hscr.
    unfold loadProgress. destruct io; cbn [loadGameProgress].
    + destruct (db w) as [saved|] eqn:Hdb.
      * destruct (savedOptions saved);
          (apply SquadOk_intro; cbn; [exact Hd | exact Hd | exact Hscr]).
      * apply SquadOk_intro; cbn; [exact Hg | exact I | exact Hscr].
    + apply SquadOk_intro; cbn; [exact Hg | exact Hd | exact Hscr].
  - (* new game *)
    intros _. apply SquadOk_intro; cbn; [exact Hg | exact Hd | exact I].
  - (* continue *)
    intros _ Hsave. unfold handleContinue.
    unfold hasSaveData in Hsave.
    destruct (gameProgress (ui w)) as [gp|] eqn:Hgp; [|discriminate].
    assert (Hfull : Z.of_nat (List.length (orEmpty (savedSelectedWingmen gp)))
                    = maxSelections).
    { destruct Hg as [Hnil|Hlen]; [|exact Hlen].
      destruct (savedSelectedWingmen gp) as [[|x xs]|]; discriminate. }
    unfold onUi.
    destruct (nonEmpty (savedCompletedLevels gp));
      [|rewrite Hsave];
      (apply SquadOk_intro; cbn; [rewrite Hgp; exact Hg | exact Hd | exact Hfull]).
  - (* options *)
    intros Hs. rewrite Hs in Hscr.
    apply SquadOk_intro; cbn; [exact Hg | exact Hd | exact Hscr].
  - (* options changed *)
    intros io o Hs. rewrite Hs in Hscr. unfold handleUpdateOptions, saveProgress.
    destruct io; cbn [saveGameProgress].
    + apply SquadOk_intro; cbn; [exact Hscr | exact Hscr |].
      squad_screen Hs. exact Hscr.
    + apply SquadOk_intro; cbn; [exact Hg | exact Hd |].
      squad_screen Hs. exact Hscr.
  - (* back from the options *)
    intros Hs. rewrite Hs in Hscr.
    apply SquadOk_intro; cbn; [exact Hg | exact Hd | exact Hscr].
  - (* a wingman card *)
    intros wid Hs _.
    apply SquadOk_intro; cbn; [exact Hg | exact Hd |].
    squad_screen Hs. exact I.
  - (* confirm team *)
    intros io Hs Hfull. unfold handleWingmenConfirm.
    apply saveProgress_squad; try assumption.
    right. exact Hfull.
  - (* launch *)
    intros Hs. rewrite Hs in Hscr.
    apply SquadOk_intro; cbn; [exact Hg | exact Hd | exact Hscr].
  - (* back from the briefing *)
    intros Hs. rewrite Hs in Hscr. unfold handleMissionBack.
    destruct (completedLevels (ui w));
      (apply SquadOk_intro; cbn; [exact Hg | exact Hd | first [exact I | exact Hscr]]).
  - (* the outcome of the mission being played *)
    intros r Hs. rewrite Hs in Hscr.
    apply SquadOk_intro; cbn; [exact Hg | exact Hd | exact Hscr].
  - (* results acknowledged *)
    intros io Hs. rewrite Hs in Hscr. unfold handleResultsContinue.
    destruct (negb (resultsCompleted (lastResults (ui w)))).
    + apply SquadOk_intro; cbn; [exact Hg | exact Hd | exact Hscr].
    + destruct (levelIsFinal (currentLevel (ui w)));
        (apply saveProgress_squad;
         [right; exact Hscr | exact Hg | exact Hd | exact Hscr]).
  - (* a level of the map *)
    intros io levelId Hs _. rewrite Hs in Hscr. unfold handleLevelSelect.
    apply saveProgress_squad; [right; exact Hscr | exact Hg | exact Hd | exact Hscr].
  - (* New Game+ *)
    intros io Hs. unfold handleNewGamePlus. destruct io; cbn [clearGameProgress];
      [|exact Hw].
    apply SquadOk_intro; cbn; [exact Hg | exact I | exact I].
  - (* main menu *)
    intros Hs. rewrite Hs in Hscr.
    apply SquadOk_intro; cbn; [exact Hg | exact Hd | right; exact Hscr].
Qed.

Lemma stepInPlay_sat (P : list string -> Prop) :
  P [] ->
  (forall sel wid, In wid rosterIds -> P sel ->
                   P (handleToggle maxSelections sel wid)) ->
  forall e w, WorldSat P w -> WorldSat P (stepInPlay e w).
Proof.
  intros Hnil Htog e w Hw.
  destruct (stepInPlay_step e w) as [-> | ->]; [|exact Hw].
  now apply step_sat.
Qed.

(** X6.  With one report per mission, over a store whose record (if any)
    holds no squad or two distinct roster members, a mission is only ever
    briefed, launched, played and scored with a squad of exactly two
    distinct members of the roster; this is the squad [handleStartMission]
    hands to the parent. *)
Theorem launched_squad_is_a_pair (db0 : Store) (events : list Event) :
  RecordSquadOk db0 ->
  RecordSat SelectionOk db0 ->
  RecordSat FromRoster db0 ->
  let s := ui (runInPlay events (boot db0)) in
  screen s = mission \/ screen s = playing \/ screen s = results
  \/ screen s = campaignChoice \/ screen s = gameComplete ->
  exists a b,
    fst (fst (snd (startLevelCall s))) = [a; b]
    /\ a <> b /\ In a rosterIds /\ In b rosterIds.
Proof.
  intros Hsq Hsel Hros s Hon.
  assert (Hsquad : LoadingOk (runInPlay events (boot db0))
                   /\ SquadOk (runInPlay events (boot db0))).
  { apply (runInPlay_inv (fun w => LoadingOk w /\ SquadOk w)).
    - intros e w [Hl Hw]. split;
        [now apply stepInPlay_loading | now apply stepInPlay_squad].
    - split; [intros _; repeat split|].
      apply SquadOk_intro; cbn; [exact I | exact Hsq | now left]. }
  destruct Hsquad as [_ Hsquad].
  assert (Hok : WorldSat SelectionOk (runInPlay events (boot db0))).
  { apply runInPlay_inv.
    - apply stepInPlay_sat; [apply SelectionOk_nil|].
      intros sel wid _. apply handleToggle_ok.
    - apply boot_sat; [apply SelectionOk_nil | exact Hsel]. }
  assert (Hroster : WorldSat FromRoster (runInPlay events (boot db0))).
  { apply runInPlay_inv.
    - apply stepInPlay_sat; [constructor|].
      intros sel wid. apply handleToggle_roster.
    - apply boot_sat; [constructor | exact Hros]. }
  destruct Hsquad as (_ & _ & Hscr). destruct Hok as [[Hnd _] _].
  destruct Hroster as [Hfrom _]. fold s in Hscr, Hnd, Hfrom.
  cbn [startLevelCall fst snd].
  assert (Hlen : Z.of_nat (List.length (selectedWingmen s)) = maxSelections).
  { unfold ScreenSquadOk in Hscr.
    destruct Hon as [Hs|[Hs|[Hs|[Hs|Hs]]]]; rewrite Hs in Hscr; exact Hscr. }
  unfold maxSelections in Hlen.
  destruct (selectedWingmen s) as [|a [|b [|c rest]]]; cbn in Hlen; try lia.
  exists a, b. split; [reflexivity|].
  inversion Hnd as [|? ? Hna _]; subst.
  inversion Hfrom as [|? ? Ha Hrest]; subst.
  inversion Hrest as [|? ? Hb _]; subst.
  repeat split; try assumption.
  intros ->. apply Hna. now left.
Qed.

Lemma launched_squad_is_a_pair_witness :
  RecordSquadOk None /\ RecordSat SelectionOk None /\ RecordSat FromRoster None
  /\ screen (ui (runInPlay toFinalMission (boot None))) = playing
  /\ exists a b,
       fst (fst (snd (startLevelCall (ui (runInPlay toFinalMission (boot None))))))
       = [a; b]
       /\ a <> b /\ In a rosterIds /\ In b rosterIds.
Proof.
  assert (Hs : screen (ui (runInPlay toFinalMission (boot None))) = playing)
    by (vm_compute; reflexivity).
  split; [exact I|]. split; [exact I|]. split; [exact I|]. split; [exact Hs|].
  apply (launched_squad_is_a_pair None toFinalMission I I I).
  right. left. exact Hs.
Defined.

(** ** Continue *)

(** X7.  From the main menu the Continue button never leads to the wingman
    selection: the button is disabled unless the saved copy holds a squad,
    and with a squad [handleContinue] shows the campaign map or the
    briefing.  A saved record without squad cannot be continued, whatever
    levels it has completed. *)
Theorem continue_button_destinations (w : World) :
  screen (ui w) = mainMenu ->
  let w' := step ClickContinue w in
  (hasSaveData (ui w) = false -> w' = w)
  /\ (hasSaveData (ui w) = true ->
      (screen (ui w') = campaignChoice \/ screen (ui w') = mission)
      /\ selectedWingmen (ui w') <> [])
  /\ screen (ui w') <> wingmanChoice.
Proof.
  intros Hs w'. unfold w', step. cbv zeta. rewrite Hs.
  destruct (hasSaveData (ui w)) eqn:Hsave.
  - assert (Hdest : (screen (ui (handleContinue w)) = campaignChoice
                     \/ screen (ui (handleContinue w)) = mission)
                    /\ selectedWingmen (ui (handleContinue w)) <> []).
    { unfold hasSaveData in Hsave. unfold handleContinue.
      destruct (gameProgress (ui w)) as [gp|]; [|discriminate].
      assert (Hsq : orEmpty (savedSelectedWingmen gp) <> [])
        by (destruct (savedSelectedWingmen gp) as [[|x xs]|]; discriminate).
      unfold onUi. rewrite Hsave.
      destruct (nonEmpty (savedCompletedLevels gp)); cbn; split; auto. }
    split; [discriminate|]. split; [intros _; exact Hdest|].
    destruct Hdest as [[Hd|Hd] _]; rewrite Hd; discriminate.
  - split; [reflexivity|]. split; [discriminate|]. rewrite Hs. discriminate.
Qed.

Lemma continue_button_destinations_witness :
  screen (ui (step (Mount resolved) (boot (Some midRunRecord)))) = mainMenu
  /\ screen (ui (step ClickContinue
                   (step (Mount resolved) (boot (Some midRunRecord)))))
     <> wingmanChoice.
Proof.
  assert (Hs : screen (ui (step (Mount resolved) (boot (Some midRunRecord))))
               = mainMenu) by (vm_compute; reflexivity).
  split; [exact Hs|].
  apply (continue_button_destinations _ Hs).
Defined.

(** ** Options and the saved run *)

(** X8.  Changing an option writes the run fields of the state, not those
    of the saved record.  In a new session the state still holds the
    initial run until Continue is pressed, so a change of options made from
    the main menu replaces a saved run by an empty one: the record keeps
    the run counter and gets the new options, and the Continue button is
    disabled from then on. *)
Theorem options_change_resets_saved_run (saved : Progress) (o : Options) :
  let w := run [Mount resolved; ClickOptions; ChangeOptions o resolved]
               (boot (Some saved)) in
  db w = Some (mkProgress (Some o) (Some "1") (Some []) (Some []) (Some 0)
                 (Some (orZero (savedCompletedRuns saved))))
  /\ gameProgress (ui w) = db w
  /\ hasSaveData (ui w) = false
  /\ run [ClickOptionsBack; ClickContinue] w = step ClickOptionsBack w.
Proof.
  destruct saved as [so cl path squad sc runs].
  destruct so; cbn; repeat split.
Qed.

(** ** Saving and resuming *)

Lemma orString_nonempty (level d : string) :
  level <> "" -> orString (Some level) d = level.
Proof. destruct level; [congruence | reflexivity]. Qed.

(** X9.  After a resolved write made by confirming the team, choosing a
    level, changing an option or acknowledging a victory that does not end
    the campaign, the store holds exactly the snapshot of the state.  A
    new session that continues from a store holding the snapshot of a state
    with a squad and a current level gets the same squad, current level,
    completed levels, total score, options and run counter back. *)
Theorem save_then_resume :
  (forall w, Z.of_nat (List.length (selectedWingmen (ui w))) = maxSelections ->
             let w' := handleWingmenConfirm resolved w in
             db w' = Some (snapshot (ui w')))
  /\ (forall w levelId,
         let w' := handleLevelSelect resolved levelId w in
         db w' = Some (snapshot (ui w')))
  /\ (forall w o,
         let w' := handleUpdateOptions resolved o w in
         db w' = Some (snapshot (ui w')))
  /\ (forall w,
         resultsCompleted (lastResults (ui w)) = true ->
         levelIsFinal (currentLevel (ui w)) = false ->
         let w' := handleResultsContinue resolved w in
         db w' = Some (snapshot (ui w')))
  /\ (forall w,
         db w = Some (snapshot (ui w)) ->
         selectedWingmen (ui w) <> [] ->
         currentLevel (ui w) <> "" ->
         let w' := run [Mount resolved; ClickContinue] (boot (db w)) in
         selectedWingmen (ui w') = selectedWingmen (ui w)
         /\ currentLevel (ui w') = currentLevel (ui w)
         /\ completedLevels (ui w') = completedLevels (ui w)
         /\ totalScore (ui w') = totalScore (ui w)
         /\ options (ui w') = options (ui w)
         /\ completedRunsOf (gameProgress (ui w'))
            = completedRunsOf (gameProgress (ui w))
         /\ screen (ui w') = match completedLevels (ui w) with
                             | [] => mission
                             | _ :: _ => campaignChoice
                             end).
Proof.
  assert (Hsnap : forall render u w0,
             savedOptions (spread (snapshot render) u) = Some (options (ui w0)) ->
             savedCurrentLevel (spread (snapshot render) u)
             = Some (currentLevel (ui w0)) ->
             savedCompletedLevels (spread (snapshot render) u)
             = Some (completedLevels (ui w0)) ->
             savedSelectedWingmen (spread (snapshot render) u)
             = Some (selectedWingmen (ui w0)) ->
             savedTotalScore (spread (snapshot render) u)
             = Some (totalScore (ui w0)) ->
             savedCompletedRuns (spread (snapshot render) u)
             = Some (completedRunsOf (gameProgress render)) ->
             db (saveProgress render resolved u w0)
             = Some (snapshot (ui (saveProgress render resolved u w0)))).
  { intros render u w0 H1 H2 H3 H4 H5 H6.
    unfold saveProgress. cbn [saveGameProgress db ui].
    destruct (spread (snapshot render) u) as [a b c d e f] eqn:Hp.
    cbn in H1, H2, H3, H4, H5, H6. subst a b c d e f.
    unfold snapshot. cbn. f_equal. f_equal. f_equal. symmetry.
    exact (orZero_Some _). }
  split; [|split; [|split; [|split]]].
  - intros w _ w'. unfold w', handleWingmenConfirm. cbv zeta.
    match goal with
    | |- db (onUi _ (saveProgress ?r resolved ?u ?w0)) = _ =>
        exact (Hsnap r u w0 eq_refl eq_refl eq_refl eq_refl eq_refl eq_refl)
    end.
  - intros w levelId w'. unfold w', handleLevelSelect. cbv zeta.
    match goal with
    | |- db (onUi _ (saveProgress ?r resolved ?u ?w0)) = _ =>
        exact (Hsnap r u w0 eq_refl eq_refl eq_refl eq_refl eq_refl eq_refl)
    end.
  - intros w o w'. unfold w', handleUpdateOptions. cbv zeta.
    match goal with
    | |- db (saveProgress ?r resolved ?u ?w0) = _ =>
        exact (Hsnap r u w0 eq_refl eq_refl eq_refl eq_refl eq_refl eq_refl)
    end.
  - intros w Hwin Hfin w'. unfold w', handleResultsContinue. cbv zeta.
    rewrite Hwin, Hfin. cbn [negb].
    match goal with
    | |- db (onUi _ (saveProgress ?r resolved ?u ?w0)) = _ =>
        exact (Hsnap r u w0 eq_refl eq_refl eq_refl eq_refl eq_refl eq_refl)
    end.
  - intros w Hdb Hsq Hcur w'. unfold w'. rewrite Hdb. unfold snapshot.
    destruct (selectedWingmen (ui w)) as [|a squad]; [congruence|].
    destruct (currentLevel (ui w)) as [|c cs]; [congruence|].
    destruct (completedLevels (ui w)) as [|l path]; cbn;
      repeat split; exact (orZero_Some _).
Qed.

Lemma save_then_resume_witness :
  db afterFirstMission = Some (snapshot (ui afterFirstMission))
  /\ selectedWingmen (ui afterFirstMission) <> []
  /\ currentLevel (ui afterFirstMission) <> ""
  /\ completedLevels
       (ui (run [Mount resolved; ClickContinue] (boot (db afterFirstMission))))
     = completedLevels (ui afterFirstMission).
Proof.
  destruct save_then_resume as (_ & _ & _ & _ & Hresume).
  assert (Hdb : db afterFirstMission = Some (snapshot (ui afterFirstMission)))
    by (vm_compute; reflexivity).
  assert (Hsq : selectedWingmen (ui afterFirstMission) <> [])
    by (vm_compute; discriminate).
  assert (Hcur : currentLevel (ui afterFirstMission) <> "")
    by (vm_compute; discriminate).
  split; [exact Hdb|]. split; [exact Hsq|]. split; [exact Hcur|].
  apply (Hresume afterFirstMission Hdb Hsq Hcur).
Defined.

(** ** The run counter *)



(** ** The total score *)

Lemma ScoreOk_intro (w : World) :
  0 <= totalScore (ui w) ->
  0 <= resultsScore (lastResults (ui w)) ->
  RecordScoreOk (gameProgress (ui w)) ->
  RecordScoreOk (db w) ->
  ScoreOk w.
Proof. intros H1 H2 H3 H4. exact (conj H1 (conj H2 (conj H3 H4))). Qed.

Lemma saveProgress_score (render : MenuState) (io : IO) (updates : Progress)
  (w : World) (v : Screen) :
  RecordScoreOk (Some (spread (snapshot render) updates)) ->
  ScoreOk w ->
  ScoreOk (onUi (setScreen v) (saveProgress render io updates w)).
Proof.
  intros Hu (Ht & Hr & Hg & Hd). unfold saveProgress.
  destruct io; cbn [saveGameProgress].
  - apply ScoreOk_intro; [exact Ht | exact Hr | exact Hu | exact Hu].
  - apply ScoreOk_intro; assumption.
Qed.

Lemma snapshot_score (s : MenuState) (updates : Progress) :
  savedTotalScore updates = None ->
  0 <= totalScore s ->
  RecordScoreOk (Some (spread (snapshot s) updates)).
Proof.
  intros Hnone Ht. cbn -[orZero]. rewrite Hnone. cbn -[orZero].
  now rewrite orZero_Some.
Qed.

Lemma step_score (e : Event) (w : World) :
  reportsNonNegative e -> ScoreOk w -> ScoreOk (step e w).
Proof.
  intros He Hw. pose proof Hw as (Ht & Hr & Hg & Hd).
  apply step_cases_ev; try (intros; exact Hw).
  - (* mount *)
    intros io _. unfold loadProgress. destruct io; cbn [loadGameProgress];
      [|exact Hw].
    destruct (db w) as [saved|] eqn:Hdb.
    + destruct (savedOptions saved);
        (apply ScoreOk_intro; [exact Ht | exact Hr | exact Hd | exact Hd]).
    + apply ScoreOk_intro; [exact Ht | exact Hr | exact Hg | exact I].
  - (* new game *)
    intros _. apply ScoreOk_intro; [cbn; lia | exact Hr | exact Hg | exact Hd].
  - (* continue *)
    intros _ _. unfold handleContinue.
    destruct (gameProgress (ui w)) as [gp|] eqn:Hgp; [|exact Hw].
    assert (Hsaved : 0 <= orZero (savedTotalScore gp)) by exact Hg.
    unfold onUi.
    destruct (nonEmpty (savedCompletedLevels gp));
      [|destruct (nonEmpty (savedSelectedWingmen gp))];
      (apply ScoreOk_intro;
       [exact Hsaved | exact Hr | cbn; rewrite Hgp; exact Hsaved | exact Hd]).
  - (* options changed *)
    intros io o _. unfold handleUpdateOptions, saveProgress.
    assert (Hu : RecordScoreOk
                   (Some (spread (snapshot (ui w))
                            (mkProgress (Some o) None None None None None))))
      by (now apply snapshot_score).
    destruct io; cbn [saveGameProgress].
    + apply ScoreOk_intro; [exact Ht | exact Hr | exact Hu | exact Hu].
    + apply ScoreOk_intro; [exact Ht | exact Hr | exact Hg | exact Hd].
  - (* confirm team *)
    intros io _ _. unfold handleWingmenConfirm.
    apply saveProgress_score; [now apply snapshot_score | exact Hw].
  - (* back from the briefing *)
    intros _. unfold handleMissionBack.
    destruct (completedLevels (ui w)); exact Hw.
  - (* an outcome arrives *)
    intros r Hev. subst e. cbn in He.
    apply ScoreOk_intro; [exact Ht | | exact Hg | exact Hd].
    cbn -[orZero]. now rewrite orZero_Some.
  - (* results acknowledged *)
    intros io _. unfold handleResultsContinue.
    destruct (negb (resultsCompleted (lastResults (ui w)))); [exact Hw|].
    assert (Hnew : 0 <= jsAdd (totalScore (ui w))
                          (resultsScore (lastResults (ui w))))
      by (now apply jsAdd_nonneg).
    destruct (levelIsFinal (currentLevel (ui w)));
      (apply saveProgress_score;
       [ cbn -[orZero]; now rewrite orZero_Some
       | apply ScoreOk_intro; [exact Hnew | exact Hr | exact Hg | exact Hd] ]).
  - (* a level of the map *)
    intros io levelId _ _. unfold handleLevelSelect.
    apply saveProgress_score; [now apply snapshot_score|].
    apply ScoreOk_intro; [exact Ht | exact Hr | exact Hg | exact Hd].
  - (* New Game+ *)
    intros io _. unfold handleNewGamePlus. destruct io; cbn [clearGameProgress];
      [|exact Hw].
    apply ScoreOk_intro; [cbn; lia | exact Hr | exact Hg | exact I].
Qed.

(** X11.  When the parent only reports scores that are not negative, over
    a store whose record (if any) holds a total score that is not negative,
    the total score never becomes negative, in the state or in the store. *)
Theorem total_score_non_negative (db0 : Store) (events : list Event) :
  RecordScoreOk db0 ->
  Forall reportsNonNegative events ->
  0 <= totalScore (ui (run events (boot db0)))
  /\ RecordScoreOk (db (run events (boot db0))).
Proof.
  intros Hdb Hev.
  assert (Hinv : forall evs w, Forall reportsNonNegative evs ->
                               ScoreOk w -> ScoreOk (run evs w)).
  { induction evs as [|e rest IH]; intros w Hall Hw; [exact Hw|].
    inversion Hall as [|? ? He Hrest]; subst.
    simpl. apply IH; [exact Hrest|]. now apply step_score. }
  assert (Hok : ScoreOk (run events (boot db0))).
  { apply Hinv; [exact Hev|].
    apply ScoreOk_intro; cbn; [lia | lia | exact I | exact Hdb]. }
  destruct Hok as (Ht & _ & _ & Hd). split; assumption.
Qed.

Lemma total_score_non_negative_witness :
  RecordScoreOk None
  /\ Forall reportsNonNegative fullRun
  /\ 0 <= totalScore (ui (run fullRun (boot None))).
Proof.
  assert (Hev : Forall reportsNonNegative fullRun).
  { unfold fullRun, toFinalMission, toFirstMission. cbn [app].
    repeat constructor; cbn; lia. }
  split; [exact I|]. split; [exact Hev|].
  apply (total_score_non_negative None fullRun I Hev).
Defined.

(** ** Toggling a wingman twice *)

(** X12.  Toggling the same wingman twice: from a selection that does not
    hold the wingman and has room, the selection comes back unchanged; from
    a selection without repetitions that holds the wingman and is within
    the limit, the wingman moves to the end and the others keep their
    order; on a full selection that does not hold the wingman nothing
    happens at all. *)
Theorem toggle_twice (limit : Z) (sel : list string) (wid : string) :
  NoDup sel ->
  (~ In wid sel -> Z.of_nat (List.length sel) < limit ->
   handleToggle limit (handleToggle limit sel wid) wid = sel)
  /\ (~ In wid sel -> limit <= Z.of_nat (List.length sel) ->
      handleToggle limit sel wid = sel)
  /\ (In wid sel -> Z.of_nat (List.length sel) <= limit ->
      exists before after,
        sel = before ++ wid :: after
        /\ handleToggle limit (handleToggle limit sel wid) wid
           = before ++ after ++ [wid]).
Proof.
  intros Hnd. split; [|split].
  - intros Hnin Hroom. unfold handleToggle at 2.
    apply includes_not_In in Hnin as Hinc. rewrite Hinc.
    destruct (Z.ltb_spec (Z.of_nat (List.length sel)) limit); [|lia].
    unfold handleToggle.
    assert (Hin : includes (sel ++ [wid]) wid = true)
      by (apply includes_In, in_or_app; right; now left).
    rewrite Hin. rewrite filter_app. cbn. rewrite String.eqb_refl. cbn.
    rewrite app_nil_r. apply forallb_filter_id. apply forallb_forall.
    intros x Hx. apply negb_true_iff. apply String.eqb_neq. congruence.
  - intros Hnin Hfull. unfold handleToggle.
    apply includes_not_In in Hnin. rewrite Hnin.
    destruct (Z.ltb_spec (Z.of_nat (List.length sel)) limit); [lia|reflexivity].
  - intros Hin Hlen.
    destruct (filter_out_member sel wid Hnd Hin) as [before [after [Hsel Hfil]]].
    exists before, after. split; [exact Hsel|].
    assert (Hfirst : handleToggle limit sel wid = before ++ after).
    { unfold handleToggle. apply includes_In in Hin. now rewrite Hin. }
    rewrite Hfirst. unfold handleToggle.
    assert (Hgone : includes (before ++ after) wid = false).
    { apply includes_not_In. intros Hba. rewrite Hsel in Hnd.
      apply NoDup_remove_2 in Hnd. contradiction. }
    rewrite Hgone.
    assert (Hshort : Z.of_nat (List.length (before ++ after)) < limit).
    { rewrite Hsel in Hlen. rewrite length_app in *. cbn in Hlen. lia. }
    destruct (Z.ltb_spec (Z.of_nat (List.length (before ++ after))) limit); [|lia].
    now rewrite app_assoc.
Qed.

Lemma toggle_twice_witness :
  NoDup ["falco"; "peppy"]
  /\ In "falco" ["falco"; "peppy"]
  /\ Z.of_nat (List.length ["falco"; "peppy"]) <= 2
  /\ exists before after,
       ["falco"; "peppy"] = before ++ "falco" :: after
       /\ handleToggle 2 (handleToggle 2 ["falco"; "peppy"] "falco") "falco"
          = before ++ after ++ ["falco"].
Proof.
  assert (Hnd : NoDup ["falco"; "peppy"]).
  { repeat constructor; simpl; intuition discriminate. }
  assert (Hin : In "falco" ["falco"; "peppy"]) by (now left).
  assert (Hlen : Z.of_nat (List.length ["falco"; "peppy"]) <= 2) by (simpl; lia).
  split; [exact Hnd|]. split; [exact Hin|]. split; [exact Hlen|].
  apply (toggle_twice 2 ["falco"; "peppy"] "falco" Hnd); assumption.
Defined.

(** ** The squad shown on the briefing *)

(** X13.  The briefing shows the roster entries of the selected ids, in
    their order, and silently leaves out the ids that are not in the
    roster: the ids shown are the selected ids filtered by membership in
    the roster, and every entry shown is an entry of [WINGMEN_DATA]. *)
Theorem briefing_shows_roster_members (wingmen : list string) :
  map wingmanId (selectedWingmenData wingmen)
  = filter (includes rosterIds) wingmen
  /\ Forall (fun w => In w WINGMEN_DATA) (selectedWingmenData wingmen)
  /\ (List.length (selectedWingmenData wingmen) <= List.length wingmen)%nat
  /\ (Forall (fun id => In id rosterIds) wingmen ->
      map wingmanId (selectedWingmenData wingmen) = wingmen).
Proof.
  assert (Hfind : forall id,
             match findWingman id with
             | Some w => wingmanId w = id /\ In w WINGMEN_DATA
                         /\ includes rosterIds id = true
             | None => includes rosterIds id = false
             end).
  { intros id. unfold findWingman.
    destruct (find (fun w => String.eqb (wingmanId w) id) WINGMEN_DATA)
      as [w|] eqn:Hf.
    - apply find_some in Hf. destruct Hf as [Hin Heq].
      apply String.eqb_eq in Heq. repeat split; try assumption.
      apply includes_In. subst id. unfold rosterIds. now apply in_map.
    - apply includes_not_In. intros Hin. unfold rosterIds in Hin.
      apply in_map_iff in Hin. destruct Hin as [w [Hid Hw]].
      pose proof (find_none _ _ Hf w Hw) as Hno. cbn in Hno.
      rewrite Hid, String.eqb_refl in Hno. discriminate. }
  assert (Hmap : map wingmanId (selectedWingmenData wingmen)
                 = filter (includes rosterIds) wingmen).
  { unfold selectedWingmenData.
    induction wingmen as [|id rest IH]; [reflexivity|].
    cbn [map filterBoolean filter]. specialize (Hfind id).
    destruct (findWingman id) as [w|].
    - destruct Hfind as (Hid & _ & Hinc). rewrite Hinc. cbn. now rewrite Hid, IH.
    - rewrite Hfind. exact IH. }
  split; [exact Hmap|]. split; [|split].
  - clear Hmap. unfold selectedWingmenData.
    induction wingmen as [|id rest IH]; [constructor|].
    cbn [map filterBoolean]. specialize (Hfind id).
    destruct (findWingman id) as [w|]; [|exact IH].
    constructor; [apply Hfind | exact IH].
  - rewrite <- (length_map wingmanId), Hmap. apply filter_length_le.
  - intros Hall. rewrite Hmap. apply forallb_filter_id. apply forallb_forall.
    intros id Hid. rewrite Forall_forall in Hall. apply includes_In. now apply Hall.
Qed.

Lemma briefing_shows_roster_members_witness :
  Forall (fun id => In id rosterIds) ["slippy"; "falco"]
  /\ map wingmanId (selectedWingmenData ["slippy"; "falco"]) = ["slippy"; "falco"].
Proof.
  assert (H : Forall (fun id => In id rosterIds) ["slippy"; "falco"]).
  { repeat constructor; vm_compute; tauto. }
  split; [exact H|].
  apply (briefing_shows_roster_members ["slippy"; "falco"]). exact H.
Defined.

(** ** The campaign map *)

(** X14.  On the campaign map drawn from the choices [getAvailableChoices]
    returns, the looks agree with the clicks: a node that takes a click is
    drawn as available or as current, never as completed or locked; a node
    is drawn as completed exactly when its level is completed.  A line is
    drawn in one of three looks only: completed (green, thin, solid) when
    both ends are completed, available (blue, thick, dashed) when it leads
    from a completed level to a choice, and plain otherwise. *)
Theorem map_looks_agree_with_clicks
  (currentLevel : string) (completedLevels choices : list string) :
  getAvailableChoices completedLevels = Returned choices ->
  (forall levelId,
      includes choices levelId = true ->
      getNodeStyle currentLevel completedLevels choices levelId = mapNodeAvailable
      \/ getNodeStyle currentLevel completedLevels choices levelId = mapNodeCurrent)
  /\ (forall levelId,
         getNodeStyle currentLevel completedLevels choices levelId
         = mapNodeCompleted <-> In levelId completedLevels)
  /\ (forall levelId,
         getNodeStyle currentLevel completedLevels choices levelId = mapNodeLocked ->
         includes choices levelId = false)
  /\ (forall c,
         (includes completedLevels (from c) = true
          /\ includes completedLevels (to c) = true
          /\ renderPath completedLevels choices c
             = mkPathLine "#00ff88" 2 "none")
         \/ (includes completedLevels (from c) = true
             /\ includes choices (to c) = true
             /\ renderPath completedLevels choices c
                = mkPathLine "#3388ff" 4 "8,4")
         \/ renderPath completedLevels choices c = mkPathLine "#333" 2 "none").
Proof.
  intros Hch.
  destruct (getAvailableChoices_sound _ _ Hch) as (_ & Hnew & _).
  rewrite Forall_forall in Hnew.
  assert (Hexcl : forall id, includes choices id = true ->
                             includes completedLevels id = false).
  { intros id Hid. apply includes_not_In. apply Hnew. now apply includes_In. }
  split; [|split; [|split]].
  - intros levelId Hin. unfold getNodeStyle.
    rewrite (Hexcl levelId Hin), Hin.
    destruct (String.eqb levelId currentLevel); [now right | now left].
  - intros levelId. unfold getNodeStyle. rewrite <- includes_In.
    destruct (includes completedLevels levelId); [tauto|].
    destruct (String.eqb levelId currentLevel);
      [|destruct (includes choices levelId)]; split; discriminate.
  - intros levelId. unfold getNodeStyle.
    destruct (includes completedLevels levelId); [discriminate|].
    destruct (String.eqb levelId currentLevel); [discriminate|].
    destruct (includes choices levelId); [discriminate | reflexivity].
  - intros c. unfold renderPath.
    destruct (includes completedLevels (from c)) eqn:Hfrom; cbn [andb];
      [|right; right; reflexivity].
    destruct (includes choices (to c)) eqn:Hto.
    + rewrite (Hexcl _ Hto). right. left. repeat split.
    + destruct (includes completedLevels (to c)).
      * left. repeat split.
      * right. right. reflexivity.
Qed.

Lemma map_looks_agree_with_clicks_witness :
  getAvailableChoices ["1"; "2a"; "3"] = Returned ["4a"; "4b"]
  /\ includes ["4a"; "4b"] "4b" = true
  /\ (getNodeStyle "3" ["1"; "2a"; "3"] ["4a"; "4b"] "4b" = mapNodeAvailable
      \/ getNodeStyle "3" ["1"; "2a"; "3"] ["4a"; "4b"] "4b" = mapNodeCurrent).
Proof.
  assert (Hch : getAvailableChoices ["1"; "2a"; "3"] = Returned ["4a"; "4b"])
    by (vm_compute; reflexivity).
  assert (Hin : includes ["4a"; "4b"] "4b" = true) by (vm_compute; reflexivity).
  split; [exact Hch|]. split; [exact Hin|].
  apply (map_looks_agree_with_clicks "3" _ _ Hch). exact Hin.
Defined.

(** ** The victory screen *)

(** X15.  On the victory screen the tier handed to [GameCompleteScreen] is
    the run counter of the copy of the saved record, or 1 when that is 0.
    After a won final mission whose write resolves it is the new counter
    (the old one plus one, within the safe integers), so the screen
    highlights the tier just reached; when the write rejects it is the old
    counter (1 for a first run), so a later run highlights the tier of the
    run before. *)
Theorem victory_screen_tier (io : IO) (outcome : Results) (w : World) :
  completed outcome = true ->
  levelIsFinal (currentLevel (ui w)) = true ->
  0 <= completedRunsOf (gameProgress (ui w)) ->
  isSafeInteger (completedRunsOf (gameProgress (ui w)) + 1) ->
  let runs := completedRunsOf (gameProgress (ui w)) in
  let shown := newGamePlusLevel (ui (reportOutcome io outcome w)) in
  screen (ui (reportOutcome io outcome w)) = gameComplete
  /\ (io = resolved ->
      shown = runs + 1
      /\ newUnlock shown = lookupTier NEW_GAME_PLUS_UNLOCKS (runs + 1))
  /\ (io = rejected -> shown = Z.max 1 runs).
Proof.
  intros Hwin Hfin Hruns Hsafe runs shown. unfold shown.
  rewrite (reportOutcome_completed io outcome w Hwin). cbv zeta. rewrite Hfin.
  rewrite (jsAdd_safe _ _ Hsafe). fold runs. destruct io.
  - split; [reflexivity|]. split; [|discriminate]. intros _.
    assert (Hshown : forall render updates w0,
               savedCompletedRuns updates = Some (runs + 1) ->
               newGamePlusLevel
                 (ui (onUi (setScreen gameComplete)
                        (saveProgress render resolved updates w0)))
               = runs + 1).
    { intros render updates w0 Hu.
      unfold newGamePlusLevel, saveProgress. cbn -[orZero]. rewrite Hu.
      cbn -[orZero]. rewrite orZero_Some.
      destruct (Z.eqb_spec (runs + 1) 0); [lia | reflexivity]. }
    rewrite Hshown by reflexivity. split; reflexivity.
  - split; [reflexivity|]. split; [discriminate|]. intros _.
    unfold newGamePlusLevel, saveProgress. cbn -[orZero completedRunsOf jsAdd].
    change (match gameProgress (ui w) with
            | Some p => orZero (savedCompletedRuns p)
            | None => 0
            end) with runs.
    destruct (Z.eqb_spec runs 0); lia.
Qed.

Lemma victory_screen_tier_witness :
  completed (victory 3000) = true
  /\ levelIsFinal (currentLevel (ui inFinalMission)) = true
  /\ 0 <= completedRunsOf (gameProgress (ui inFinalMission))
  /\ isSafeInteger (completedRunsOf (gameProgress (ui inFinalMission)) + 1)
  /\ newGamePlusLevel (ui (reportOutcome resolved (victory 3000) inFinalMission))
     = completedRunsOf (gameProgress (ui inFinalMission)) + 1.
Proof.
  assert (Hwin : completed (victory 3000) = true) by reflexivity.
  assert (Hfin : levelIsFinal (currentLevel (ui inFinalMission)) = true)
    by (vm_compute; reflexivity).
  assert (Hruns : 0 <= completedRunsOf (gameProgress (ui inFinalMission)))
    by (vm_compute; discriminate).
  assert (Hsafe : isSafeInteger
                    (completedRunsOf (gameProgress (ui inFinalMission)) + 1))
    by (vm_compute; split; discriminate).
  split; [exact Hwin|]. split; [exact Hfin|]. split; [exact Hruns|].
  split; [exact Hsafe|].
  pose proof (victory_screen_tier resolved (victory 3000) inFinalMission
                Hwin Hfin Hruns Hsafe) as H.
  cbv zeta in H. destruct H as (_ & H & _). apply (H eq_refl).
Defined.

(** ** After the campaign *)

(** X16.  A session that starts right after a resolved New Game+, before
    anything is written again, finds no record: within the session the run
    counter of the saved copy was kept, but the new session has no saved
    copy, shows a run counter of 0, the default options and a disabled
    Continue button. *)
Theorem new_session_after_new_game_plus (io : IO) (w : World) :
  let cleared := handleNewGamePlus resolved w in
  let fresh := step (Mount io) (boot (db cleared)) in
  completedRunsOf (gameProgress (ui cleared))
  = completedRunsOf (gameProgress (ui w))
  /\ options (ui cleared) = options (ui w)
  /\ screen (ui fresh) = mainMenu
  /\ gameProgress (ui fresh) = None
  /\ completedRunsOf (gameProgress (ui fresh)) = 0
  /\ options (ui fresh) = defaultOptions
  /\ step ClickContinue fresh = fresh.
Proof.
  destruct io; cbn; repeat split.
Qed.

(** X17.  Continue after a finished campaign is a dead end.  When a won
    final mission has been saved, going back to the main menu and pressing
    Continue shows the campaign map with every level completed and no
    choice; from there no click changes anything any more.  Once the load
    has settled, only a new report from the parent does. *)
Theorem continue_after_victory_is_a_dead_end (outcome : Results) (w : World) :
  completed outcome = true ->
  levelIsFinal (currentLevel (ui w)) = true ->
  selectedWingmen (ui w) <> [] ->
  let stuck := run [ClickMainMenu; ClickContinue]
                   (reportOutcome resolved outcome w) in
  screen (ui stuck) = campaignChoice
  /\ completedLevels (ui stuck) = completedLevels (ui w) ++ ["5"]
  /\ getAvailableChoices (completedLevels (ui stuck)) = Returned []
  /\ (forall e, userAction e = true -> step e stuck = stuck)
  /\ (loadPending w = false ->
      forall e, (forall r, e <> LevelEnded r) -> step e stuck = stuck).
Proof.
  intros Hwin Hfin Hsq stuck.
  apply levelIsFinal_iff in Hfin as Hfive.
  assert (Hstuck : screen (ui stuck) = campaignChoice
                   /\ completedLevels (ui stuck) = completedLevels (ui w) ++ ["5"]
                   /\ loadPending stuck = loadPending w).
  { unfold stuck. rewrite (reportOutcome_completed resolved outcome w Hwin).
    cbv zeta. rewrite Hfin, Hfive.
    destruct (selectedWingmen (ui w)) as [|a squad] eqn:Hsel; [congruence|].
    cbn. unfold hasSaveData. cbn. rewrite Hsel. cbn.
    unfold handleContinue. cbn.
    destruct (completedLevels (ui w)); cbn; repeat split; reflexivity. }
  destruct Hstuck as (Hs & Hpath & Hpend).
  assert (Hnone : getAvailableChoices (completedLevels (ui stuck)) = Returned []).
  { rewrite Hpath. unfold getAvailableChoices.
    destruct (completedLevels (ui w) ++ ["5"]) as [|x xs] eqn:Happ.
    - destruct (completedLevels (ui w)); discriminate.
    - rewrite <- Happ, last_snoc. reflexivity. }
  assert (Hclicks : forall e, userAction e = true -> step e stuck = stuck).
  { intros e He. unfold step. cbv zeta. rewrite Hs.
    destruct e as [io| | | |o io| |wid|io| | |r|io|lid io|io|];
      try discriminate; try reflexivity.
    unfold clickable. rewrite Hnone. reflexivity. }
  split; [exact Hs|]. split; [exact Hpath|]. split; [exact Hnone|].
  split; [exact Hclicks|].
  intros Hp e Hne.
  destruct e as [io| | | |o io| |wid|io| | |r|io|lid io|io|];
    try (apply Hclicks; reflexivity).
  - unfold step. cbv zeta. rewrite Hpend, Hp. reflexivity.
  - exfalso. apply (Hne r). reflexivity.
Qed.

(** The load is no click: when it settles on that map, the main menu is
    shown again. *)
Example load_settles_on_the_map :
  loadPending (run beforeTheLoad (boot None)) = true
  /\ levelIsFinal (currentLevel (ui (run beforeTheLoad (boot None)))) = true
  /\ screen (ui (run [ClickMainMenu; ClickContinue]
                   (reportOutcome resolved (victory 3000)
                      (run beforeTheLoad (boot None))))) = campaignChoice
  /\ screen (ui (run [ClickMainMenu; ClickContinue; Mount resolved]
                   (reportOutcome resolved (victory 3000)
                      (run beforeTheLoad (boot None))))) = mainMenu.
Proof. repeat split; vm_compute; reflexivity. Qed.

Lemma continue_after_victory_is_a_dead_end_witness :
  completed (victory 3000) = true
  /\ levelIsFinal (currentLevel (ui inFinalMission)) = true
  /\ selectedWingmen (ui inFinalMission) <> []
  /\ getAvailableChoices
       (completedLevels
          (ui (run [ClickMainMenu; ClickContinue]
                 (reportOutcome resolved (victory 3000) inFinalMission))))
     = Returned [].
Proof.
  assert (Hwin : completed (victory 3000) = true) by reflexivity.
  assert (Hfin : levelIsFinal (currentLevel (ui inFinalMission)) = true)
    by (vm_compute; reflexivity).
  assert (Hsq : selectedWingmen (ui inFinalMission) <> [])
    by (vm_compute; discriminate).
  split; [exact Hwin|]. split; [exact Hfin|]. split; [exact Hsq|].
  apply (continue_after_victory_is_a_dead_end (victory 3000) inFinalMission
           Hwin Hfin Hsq).
Defined.

(** ** The results screen *)

Lemma step_results_shown (e : Event) (w : World) :
  (screen (ui w) = results -> lastResults (ui w) <> None) ->
  screen (ui (step e w)) = results -> lastResults (ui (step e w)) <> None.
Proof.
  intros Hw.
  apply (step_cases
           (fun w' => screen (ui w') = results -> lastResults (ui w') <> None));
    try exact Hw.
  - intros io Hs. unfold loadProgress. destruct io; cbn [loadGameProgress].
    + destruct (db w) as [saved|]; [destruct (savedOptions saved)|];
        cbn; discriminate.
    + cbn. discriminate.
  - intros _. cbn. discriminate.
  - intros _ _. unfold handleContinue.
    destruct (gameProgress (ui w)) as [gp|]; [|exact Hw]. unfold onUi.
    destruct (nonEmpty (savedCompletedLevels gp));
      [|destruct (nonEmpty (savedSelectedWingmen gp))]; cbn; discriminate.
  - intros _. cbn. discriminate.
  - intros io o Hs. unfold handleUpdateOptions, saveProgress.
    destruct io; cbn; rewrite Hs; discriminate.
  - intros _. cbn. discriminate.
  - intros wid Hs _. cbn. rewrite Hs. discriminate.
  - intros io _ _. unfold handleWingmenConfirm, saveProgress.
    destruct io; cbn; discriminate.
  - intros _. cbn. discriminate.
  - intros _. unfold handleMissionBack.
    destruct (completedLevels (ui w)); cbn; discriminate.
  - intros r _. cbn. discriminate.
  - intros io _. unfold handleResultsContinue.
    destruct (negb (resultsCompleted (lastResults (ui w)))); [cbn; discriminate|].
    destruct (levelIsFinal (currentLevel (ui w))); unfold saveProgress;
      destruct io; cbn; discriminate.
  - intros io levelId _ _. unfold handleLevelSelect, saveProgress.
    destruct io; cbn; discriminate.
  - intros io Hs. unfold handleNewGamePlus.
    destruct io; cbn; [discriminate | rewrite Hs; discriminate].
  - intros _. cbn. discriminate.
Qed.

(** X18.  Whenever the results screen is shown there are last results, so
    the stand-in object of [renderScreen] is never displayed, and the
    screen agrees with its button: under the title MISSION FAILED the
    button reads Retry and only leads back to the briefing; under MISSION
    COMPLETE it reads Continue, the current level is added to the completed
    levels and the score shown is added to the total (exactly, for a
    total, a score and a sum within the safe integers). *)
Theorem results_screen_agrees_with_button (db0 : Store) (events : list Event)
  (io : IO) :
  let w := run events (boot db0) in
  let w' := step (ClickResultsContinue io) w in
  screen (ui w) = results ->
  (exists r, lastResults (ui w) = Some r /\ resultsShown (ui w) = r)
  /\ (resultsTitle (ui w) = "MISSION FAILED" ->
      resultsButton (ui w) = "Retry" /\ w' = onUi (setScreen mission) w)
  /\ (resultsTitle (ui w) = "MISSION COMPLETE" ->
      resultsButton (ui w) = "Continue"
      /\ completedLevels (ui w') = completedLevels (ui w) ++ [currentLevel (ui w)]
      /\ (isSafeInteger (totalScore (ui w)) ->
          isSafeInteger (score (resultsShown (ui w))) ->
          isSafeInteger (totalScore (ui w) + score (resultsShown (ui w))) ->
          totalScore (ui w') = totalScore (ui w) + score (resultsShown (ui w)))
      /\ (screen (ui w') = campaignChoice \/ screen (ui w') = gameComplete)).
Proof.
  intros w w' Hs.
  assert (Hinv : forall evs w0,
             (screen (ui w0) = results -> lastResults (ui w0) <> None) ->
             screen (ui (run evs w0)) = results ->
             lastResults (ui (run evs w0)) <> None).
  { induction evs as [|e rest IH]; intros w0 Hw0; [exact Hw0|].
    simpl. apply IH. now apply step_results_shown. }
  assert (Hsome : lastResults (ui w) <> None).
  { apply Hinv; [cbn; discriminate | exact Hs]. }
  destruct (lastResults (ui w)) as [r|] eqn:Hr; [|congruence].
  assert (Hshown : resultsShown (ui w) = r)
    by (unfold resultsShown; now rewrite Hr).
  split; [exists r; split; [reflexivity | exact Hshown]|].
  unfold resultsTitle, resultsButton. rewrite Hshown.
  unfold w', step. cbv zeta. rewrite Hs. unfold handleResultsContinue.
  rewrite Hr. cbn [resultsCompleted resultsScore].
  destruct (completed r); cbn [negb]; split; try discriminate.
  - intros _. split; [reflexivity|].
    rewrite orZero_Some.
    destruct (levelIsFinal (currentLevel (ui w))); unfold saveProgress;
      destruct io; cbn -[jsAdd];
      (split; [reflexivity|];
       split; [intros _ _ Hsum; apply (jsAdd_safe _ _ Hsum)|];
       (now left) || (now right)).
  - intros _. split; reflexivity.
Qed.

Lemma results_screen_agrees_with_button_witness :
  screen (ui (run (toFirstMission ++ [LevelEnded (defeat 500)]) (boot None)))
  = results
  /\ exists r,
       lastResults
         (ui (run (toFirstMission ++ [LevelEnded (defeat 500)]) (boot None)))
       = Some r
       /\ resultsShown
            (ui (run (toFirstMission ++ [LevelEnded (defeat 500)]) (boot None)))
          = r.
Proof.
  assert (Hs : screen (ui (run (toFirstMission ++ [LevelEnded (defeat 500)])
                             (boot None))) = results)
    by (vm_compute; reflexivity).
  split; [exact Hs|].
  apply (results_screen_agrees_with_button None
           (toFirstMission ++ [LevelEnded (defeat 500)]) resolved Hs).
Defined.

(** ** The rank of a result *)



